(** * Surface map synthesizer ([generateGlassMaps], src/flat.tsx)

    A shallow embedding of the glass-map generator and the properties its
    specification states about it.

    The generator computes with JavaScript numbers.  Its code is embedded
    once, over an interface of the number operations it uses ([Number]), and
    the interface is instantiated twice:
    - [binary64]: IEEE 754 double precision, on the bit-level specification
      of the Standard Library ([SpecFloat]), with [Float32Array] stores
      rounding to single precision and [Uint8ClampedArray] stores rounding
      and clamping to a byte.  This is what the code runs on; everything is
      executable.
    - [exact]: the real numbers, without rounding.  It is used for the
      statements whose content is arithmetic (bounds and equalities of
      computed values), where rounding error is not part of the statement.

    Conventions of the embedding:
    - [width] and [height] are integers: the callers pass rounded sizes, and
      the loops index arrays with them;
    - typed arrays are lists, a store out of range does nothing and a read
      out of range gives NaN;
    - a [for] loop is a fold over the range of its counter;
    - the result of a call is [Some] of the returned object, or [None] when
      the call does not return (the loops over the blur kernel do not end);
    - the canvas and [Math.random] are the surroundings of a call ([Env]),
      and the data URL of the canvas is kept as the bitmap it encodes.

    The file also embeds the code around the generator: the effect of
    [GlassBubble] that calls it and the id of its filter, and the window
    list and the log of [MetaGlassApp] with their actions. *)

From Stdlib Require Import ZArith Bool List Lia Reals Lra SpecFloat Ascii.
From stdpp Require Import base list strings relations.

Local Open Scope Z_scope.

(* ------------------------------------------------------------------ *)
(** * Numbers *)

(** The operations on [number] values the generator uses. *)
Class Number := {
  num : Type;
  (** an integer-valued number: loop counters, integer literals *)
  of_Z : Z -> num;
  (** the value of arithmetic on [undefined] (an out-of-range array read) *)
  NaN : num;
  add : num -> num -> num;
  sub : num -> num -> num;
  mul : num -> num -> num;
  div : num -> num -> num;
  neg : num -> num;
  (** [a < b]; [a > b] is [ltb b a] *)
  ltb : num -> num -> bool;
  (** [a <= b] *)
  leb : num -> num -> bool;
  Math_abs : num -> num;
  Math_sqrt : num -> num;
  Math_floor : num -> num;
  Math_ceil : num -> num;
  Math_min : num -> num -> num;
  Math_max : num -> num -> num;
  Math_pow : num -> num -> num;
  (** ToInt32, the conversion the bit operator [&] applies to its operand *)
  to_int32 : num -> Z;
  (** the integer a loop bound denotes, when a counter stepping by one
      reaches it exactly; [None] when it does not (the loop does not end) *)
  as_count : num -> option Z;
  (** the value a [Float32Array] element holds after a store *)
  fround : num -> num;
  (** the value a [Uint8Array] element holds after a store *)
  to_uint8 : num -> Z;
  (** the value a [Uint8ClampedArray] element holds after a store *)
  to_uint8_clamped : num -> Z
}.

Declare Scope num_scope.
Delimit Scope num_scope with num.
Bind Scope num_scope with num.
Infix "+" := add : num_scope.
Infix "-" := sub : num_scope.
Infix "*" := mul : num_scope.
Infix "/" := div : num_scope.
Notation "- x" := (neg x) : num_scope.
Infix "<?" := ltb : num_scope.
Infix "<=?" := leb : num_scope.
Notation "a >? b" := (ltb b a) (only parsing) : num_scope.

(* ------------------------------------------------------------------ *)
(** * Types of the generator *)

Inductive GlassShapeProfile := convex | concave | flat | liquid.
Inductive GlassShape := rect | squircle.

(** [surfaceUrl] is either the empty string or the PNG data URL of the
    canvas; the latter is kept as the bitmap the URL encodes: the canvas
    size and the RGBA bytes of [imgData.data]. *)
Inductive Url :=
  | EmptyUrl
  | PngDataUrl (width height : Z) (data : list Z).

Record GlassMaps := { surfaceUrl : Url }.

(** What the generator takes from its surroundings: whether
    [canvas.getContext('2d')] yields a context, and the successive results
    of [Math.random()]. *)
Record Env `{Number} := {
  has_context : bool;
  random : nat -> num
}.

Definition profile_eqb (p q : GlassShapeProfile) : bool :=
  match p, q with
  | convex, convex | concave, concave | flat, flat | liquid, liquid => true
  | _, _ => false
  end.

Definition shape_eqb (p q : GlassShape) : bool :=
  match p, q with
  | rect, rect | squircle, squircle => true
  | _, _ => false
  end.

(* ------------------------------------------------------------------ *)
(** * The generator *)

Section Generator.
Context `{Number}.
Local Open Scope num_scope.

(** A decimal literal [n/d] of the source: the number nearest to the
    fraction, which is the correctly rounded quotient of the two
    integers. *)
Definition lit (n d : Z) : num := of_Z n / of_Z d.

(** [arr[i]] on a typed array of numbers. *)
Definition read (arr : list num) (i : Z) : num :=
  if (i <? 0)%Z then NaN else default NaN (arr !! Z.to_nat i).

(** [arr[i] = v] on a typed array: nothing happens out of range. *)
Definition write {A} (arr : list A) (i : Z) (v : A) : list A :=
  if (i <? 0)%Z then arr else <[Z.to_nat i := v]> arr.

(** [for (let i = lo; i < lo + n; i++) body] on a state [s]. *)
Definition for_range {S} (lo n : Z) (body : Z -> S -> S) (s : S) : S :=
  foldl (fun s i => body i s) s (seqZ lo n).

(** ** Noise *)

Definition fade (t : num) : num :=
  t * t * t * (t * (t * of_Z 6 - of_Z 15) + of_Z 10).

Definition lerp (t a b : num) : num := a + t * (b - a).

Definition grad (hash : Z) (x y : num) : num :=
  let h := Z.land hash 15 in
  let u := if (h <? 8)%Z then x else y in
  let v := if (h <? 4)%Z then y
           else if (h =? 12)%Z || (h =? 14)%Z then x else of_Z 0 in
  (if (Z.land h 1 =? 0)%Z then u else - u)
  + (if (Z.land h 2 =? 0)%Z then v else - v).

(** [perm[i] = Math.floor(Math.random() * 255)] for [i] below 512. *)
Definition make_perm (rnd : nat -> num) : list Z :=
  (fun i => to_uint8 (Math_floor (rnd i * of_Z 255))) <$> seq 0 512.

(** [perm[i]] as a number used for indexing and hashing. *)
Definition perm_at (perm : list Z) (i : Z) : Z :=
  if (i <? 0)%Z then 0%Z else default 0%Z (perm !! Z.to_nat i).

Definition noise2d (perm : list Z) (x y : num) : num :=
  let X := Z.land (to_int32 (Math_floor x)) 255 in
  let Y := Z.land (to_int32 (Math_floor y)) 255 in
  let xf := x - Math_floor x in
  let yf := y - Math_floor y in
  let u := fade xf in
  let v := fade yf in
  let A := (perm_at perm X + Y)%Z in
  let B := (perm_at perm (X + 1) + Y)%Z in
  lerp v (lerp u (grad (perm_at perm A) xf yf)
                 (grad (perm_at perm B) (xf - of_Z 1) yf))
         (lerp u (grad (perm_at perm (A + 1)) xf (yf - of_Z 1))
                 (grad (perm_at perm (B + 1)) (xf - of_Z 1) (yf - of_Z 1))).

(** ** Stages 1 and 2: geometry and turbulence *)

Section Parameters.
Variables (width height : Z) (radius bezel : num).
Variables (shape : GlassShape) (profile : GlassShapeProfile).
Variables (warp : num) (perm : list Z).

Definition cx : num := of_Z width / of_Z 2.
Definition cy : num := of_Z height / of_Z 2.
Definition r : num :=
  Math_min radius (Math_min (of_Z width) (of_Z height) / of_Z 2).
Definition bx : num := of_Z width / of_Z 2 - r.
Definition by_ : num := of_Z height / of_Z 2 - r.

Definition warpScale : num := lit 2 100.
Definition isLiquid : bool := profile_eqb profile liquid.
Definition warpAmp : num := warp * (if isLiquid then of_Z 15 else of_Z 8).

(** The sample position [(tx, ty)] of pixel [(x, y)]. *)
Definition warped (x y : Z) : num * num :=
  if (warp >? of_Z 0) || isLiquid then
    let n := noise2d perm (of_Z x * warpScale) (of_Z y * warpScale) in
    (of_Z x + n * warpAmp, of_Z y + n * warpAmp)
  else (of_Z x, of_Z y).

(** The signed distance [dist] of pixel [(x, y)]. *)
Definition pixel_dist (x y : Z) : num :=
  let '(tx, ty) := warped x y in
  if shape_eqb shape squircle then
    let nx := (tx - cx) / (of_Z width / of_Z 2) in
    let ny := (ty - cy) / (of_Z height / of_Z 2) in
    let val := Math_pow (Math_abs nx) (of_Z 4)
               + Math_pow (Math_abs ny) (of_Z 4) in
    (Math_pow val (lit 1 4) - of_Z 1)
    * (Math_min (of_Z width) (of_Z height) / of_Z 2)
  else
    let dx := Math_abs (tx - cx) - bx in
    let dy := Math_abs (ty - cy) - by_ in
    let dOuter :=
      Math_sqrt (Math_pow (Math_max dx (of_Z 0)) (of_Z 2)
                 + Math_pow (Math_max dy (of_Z 0)) (of_Z 2)) in
    let dInner := Math_min (Math_max dx dy) (of_Z 0) in
    dOuter + dInner - r.

(** The height [h] the profile gives to a distance, before the surface
    noise. *)
Definition profile_height (dist : num) : num :=
  if dist <? - bezel then of_Z 1
  else if dist >? of_Z 1 then of_Z 0
  else
    let t := Math_max (of_Z 0) (Math_min (of_Z 1) (- dist / bezel)) in
    match profile with
    | flat => t
    | concave => of_Z 1 - Math_pow t (of_Z 2)
    | _ => of_Z 1 - Math_pow (of_Z 1 - t) (of_Z 3)
    end.

(** The value assigned to [heightMap[idx]] for pixel [(x, y)]. *)
Definition pixel_height (x y : Z) : num :=
  let h := profile_height (pixel_dist x y) in
  let h :=
    if isLiquid && (h >? lit 8 10) then
      h + noise2d perm (of_Z x * lit 15 1000) (of_Z y * lit 15 1000)
          * lit 3 100
    else h in
  Math_max (of_Z 0) (Math_min (of_Z 1) h).

(** The first loop nest: it fills [heightMap]. *)
Definition profile_pass (heightMap : list num) : list num :=
  for_range 0 height (fun y =>
    for_range 0 width (fun x hm =>
      let idx := (y * width + x)%Z in
      write hm idx (fround (pixel_height x y)))) heightMap.

(** ** Stage 3: erosion *)

(** The innermost loop: [(sum, weight)] after
    [for (let k = -kernel; k <= kernel; k++)]. *)
Definition blur_sum (kernel : Z) (sample : Z -> num) : num * num :=
  for_range (- kernel) (2 * kernel + 1) (fun k '(sum, weight) =>
    (sum + sample k, weight + of_Z 1)) (of_Z 0, of_Z 0).

(** [sum / weight]. *)
Definition blur_average (kernel : Z) (sample : Z -> num) : num :=
  let '(sum, weight) := blur_sum kernel sample in sum / weight.

Definition horizontal_sample (heightMap : list num) (x y k : Z) : num :=
  let px := Z.min (width - 1) (Z.max 0 (x + k)) in
  read heightMap (y * width + px).

Definition vertical_sample (tempMap : list num) (x y k : Z) : num :=
  let py := Z.min (height - 1) (Z.max 0 (y + k)) in
  read tempMap (py * width + x).

Definition horizontal_pass (kernel : Z) (heightMap tempMap : list num)
  : list num :=
  for_range 0 height (fun y =>
    for_range 0 width (fun x tm =>
      write tm (y * width + x)
        (fround (blur_average kernel (horizontal_sample heightMap x y)))))
    tempMap.

Definition vertical_pass (kernel : Z) (tempMap heightMap : list num)
  : list num :=
  for_range 0 width (fun x =>
    for_range 0 height (fun y hm =>
      write hm (y * width + x)
        (fround (blur_average kernel (vertical_sample tempMap x y)))))
    heightMap.

(** [kernel = Math.max(1, Math.ceil(tension))]. *)
Definition erosion_kernel (tension : num) : num :=
  Math_max (of_Z 1) (Math_ceil tension).

(** The erosion stage on the pair [(heightMap, tempMap)]; [None] when
    the loops over [k] do not end. *)
Definition erosion (tension : num) (heightMap tempMap : list num)
  : option (list num * list num) :=
  if tension >? of_Z 0 then
    match as_count (erosion_kernel tension) with
    | Some kernel =>
        let tempMap' := horizontal_pass kernel heightMap tempMap in
        Some (vertical_pass kernel tempMap' heightMap, tempMap')
    | None => None
    end
  else Some (heightMap, tempMap).

(** ** Stages 4 and 5: normals and packing *)

Definition steepness : num := of_Z 4.

(** [dx] and [dy] of pixel [(x, y)]. *)
Definition gradient (heightMap : list num) (x y : Z) : num * num :=
  let x0 := Z.max 0 (x - 1) in
  let x1 := Z.min (width - 1) (x + 1) in
  let y0 := Z.max 0 (y - 1) in
  let y1 := Z.min (height - 1) (y + 1) in
  ((read heightMap (y * width + x0) - read heightMap (y * width + x1))
     * steepness,
   (read heightMap (y0 * width + x) - read heightMap (y1 * width + x))
     * steepness).

(** [len] of pixel [(x, y)]. *)
Definition normal_len (heightMap : list num) (x y : Z) : num :=
  let '(dx, dy) := gradient heightMap x y in
  Math_sqrt (dx * dx + dy * dy + of_Z 1).

(** The four numbers assigned to [data[i .. i+3]] for pixel [(x, y)]. *)
Definition pixel_rgba (heightMap : list num) (x y : Z)
  : num * num * num * num :=
  let hVal := read heightMap (y * width + x) in
  let '(dx, dy) := gradient heightMap x y in
  let len := normal_len heightMap x y in
  let nx := dx / len in
  let ny := dy / len in
  ((nx * lit 1 2 + lit 1 2) * of_Z 255,
   (ny * lit 1 2 + lit 1 2) * of_Z 255,
   hVal * of_Z 255,
   if hVal >? lit 1 100 then of_Z 255 else of_Z 0).

Definition pack_pass (heightMap : list num) (data : list Z) : list Z :=
  for_range 0 height (fun y =>
    for_range 0 width (fun x data =>
      let i := ((y * width + x) * 4)%Z in
      let '(R, G, B, A) := pixel_rgba heightMap x y in
      let data := write data i (to_uint8_clamped R) in
      let data := write data (i + 1) (to_uint8_clamped G) in
      let data := write data (i + 2) (to_uint8_clamped B) in
      write data (i + 3) (to_uint8_clamped A))) data.

(** The height field before the erosion stage and, when the erosion
    ends, after it. *)
Definition size : Z := (width * height)%Z.

Definition profiled_heightMap : list num :=
  profile_pass (replicate (Z.to_nat size) (of_Z 0)).

Definition eroded_heightMap (tension : num) : option (list num) :=
  fst <$> erosion tension profiled_heightMap
                  (replicate (Z.to_nat size) (of_Z 0)).

Definition createImageData : list Z :=
  replicate (Z.to_nat (width * height * 4)) 0%Z.
End Parameters.

(** ** The whole function.  [None]: the call does not return. *)
Definition generateGlassMaps (env : Env) (width height : Z) (radius bezel : num)
    (shape : GlassShape) (profile : GlassShapeProfile) (tension warp : num)
    : option GlassMaps :=
  if (width <=? 0)%Z || (height <=? 0)%Z then Some {| surfaceUrl := EmptyUrl |}
  else if negb (has_context env) then Some {| surfaceUrl := EmptyUrl |}
  else
    let perm := make_perm (random env) in
    match eroded_heightMap width height radius bezel shape profile warp perm
            tension with
    | Some heightMap =>
        let data := pack_pass width height heightMap
                      (createImageData width height) in
        Some {| surfaceUrl := PngDataUrl width height data |}
    | None => None
    end.
End Generator.

(* ------------------------------------------------------------------ *)
(** * IEEE 754 double precision *)

Module B64.
Definition prec : Z := 53.
Definition emax : Z := 1024.

Definition float := spec_float.

Definition fadd := SFadd prec emax.
Definition fsub := SFsub prec emax.
Definition fmul := SFmul prec emax.
Definition fdiv := SFdiv prec emax.
Definition fsqrt := SFsqrt prec emax.
Definition fltb := SFltb.
Definition fleb := SFleb.

(** The double nearest to an integer. *)
Definition of_Z (z : Z) : float := binary_normalize prec emax z 0 false.

Definition is_neg_zero (x : float) : bool :=
  match x with S754_zero true => true | _ => false end.

(** [Math.min] and [Math.max]: NaN if an argument is NaN, and [-0] is
    below [+0]. *)
Definition fmin (a b : float) : float :=
  match SFcompare a b with
  | None => S754_nan
  | Some Lt => a
  | Some Gt => b
  | Some Eq => if is_neg_zero a then a else b
  end.

Definition fmax (a b : float) : float :=
  match SFcompare a b with
  | None => S754_nan
  | Some Lt => b
  | Some Gt => a
  | Some Eq => if is_neg_zero a then b else a
  end.

(** The integer [floor (±m·2^e)]. *)
Definition floorZ (s : bool) (m : positive) (e : Z) : Z :=
  let v := cond_Zopp s (Zpos m) in
  if 0 <=? e then v * 2 ^ e else Z.shiftr v (- e).

(** The integer part of [±m·2^e], rounding toward zero. *)
Definition truncZ (s : bool) (m : positive) (e : Z) : Z :=
  cond_Zopp s (if 0 <=? e then Zpos m * 2 ^ e else Z.shiftr (Zpos m) (- e)).

Definition ffloor (x : float) : float :=
  match x with
  | S754_finite s m e =>
      if 0 <=? e then x
      else let z := floorZ s m e in
           if z =? 0 then S754_zero s else of_Z z
  | _ => x
  end.

Definition fceil (x : float) : float := SFopp (ffloor (SFopp x)).

Definition to_integer (x : float) : Z :=
  match x with
  | S754_finite s m e => truncZ s m e
  | _ => 0
  end.

Definition to_int32 (x : float) : Z :=
  (to_integer x + 2 ^ 31) mod 2 ^ 32 - 2 ^ 31.

Definition to_uint8 (x : float) : Z := to_integer x mod 256.

(** Round to the nearest integer, ties to even, and clamp to [0, 255];
    NaN gives 0. *)
Definition to_uint8_clamped (x : float) : Z :=
  match x with
  | S754_nan | S754_zero _ => 0
  | S754_infinity s => if s then 0 else 255
  | S754_finite true _ _ => 0
  | S754_finite false m e =>
      if 0 <=? e then Z.min 255 (Zpos m * 2 ^ e)
      else
        let q := Z.shiftr (Zpos m) (- e) in
        let rem := Zpos m - Z.shiftl q (- e) in
        let half := 2 ^ (- e - 1) in
        let n := match rem ?= half with
                 | Lt => q
                 | Gt => q + 1
                 | Eq => if Z.even q then q else q + 1
                 end in
        Z.min 255 n
  end.

(** A loop bound counts exactly when it is an integer below [2^52]: the
    counter [k] and the count [weight] then step by one without
    rounding.  Beyond that, and for an infinite bound, the model gives no
    result. *)
Definition as_count (x : float) : option Z :=
  match x with
  | S754_zero _ => Some 0
  | S754_finite s m e =>
      let z := truncZ s m e in
      if (Z.abs z <? 2 ^ 52) && (if 0 <=? e then true
                                 else Zpos m mod 2 ^ (- e) =? 0)
      then Some z else None
  | _ => None
  end.

(** Rounding to single precision, as a double. *)
Definition fround (x : float) : float :=
  match x with
  | S754_finite s m e =>
      match binary_round 24 128 s m e with
      | S754_finite s' m' e' => binary_round prec emax s' m' e'
      | y => y
      end
  | _ => x
  end.

(** [b] multiplied [n] times from the left. *)
Fixpoint pow_nat (b : float) (n : nat) : float :=
  match n with
  | O => of_Z 1
  | S O => b
  | S n' => fmul (pow_nat b n') b
  end.

(** [Math.pow] is left to the implementation by ECMA-262 ("an
    implementation-approximated value").  The model follows it on the
    exponents the generator passes: a natural number, by repeated
    multiplication, and 0.25, by two square roots; it agrees with every
    implementation where the power is a double.  Other exponents give
    NaN. *)
Definition fpow (b e : float) : float :=
  match as_count e with
  | Some n => if 0 <=? n then pow_nat b (Z.to_nat n) else S754_nan
  | None =>
      if SFeqb e (fdiv (of_Z 1) (of_Z 4)) then
        match b with
        | S754_zero _ => S754_zero false
        | S754_infinity _ => S754_infinity false
        | _ => fsqrt (fsqrt b)
        end
      else S754_nan
  end.
End B64.

#[export] Instance binary64 : Number := {|
  num := B64.float;
  of_Z := B64.of_Z;
  NaN := S754_nan;
  add := B64.fadd;
  sub := B64.fsub;
  mul := B64.fmul;
  div := B64.fdiv;
  neg := SFopp;
  ltb := B64.fltb;
  leb := B64.fleb;
  Math_abs := SFabs;
  Math_sqrt := B64.fsqrt;
  Math_floor := B64.ffloor;
  Math_ceil := B64.fceil;
  Math_min := B64.fmin;
  Math_max := B64.fmax;
  Math_pow := B64.fpow;
  to_int32 := B64.to_int32;
  as_count := B64.as_count;
  fround := B64.fround;
  to_uint8 := B64.to_uint8;
  to_uint8_clamped := B64.to_uint8_clamped
|}.

(* ------------------------------------------------------------------ *)
(** * Exact arithmetic *)

Module Exact.
Local Open Scope R_scope.

Definition Rltb (a b : R) : bool := if Rlt_dec a b then true else false.
Definition Rleb (a b : R) : bool := if Rle_dec a b then true else false.

Definition floorZ (x : R) : Z := Int_part x.
Definition ceilZ (x : R) : Z := (- Int_part (- x))%Z.
Definition truncZ (x : R) : Z :=
  if Rle_dec 0 x then floorZ x else ceilZ x.

Definition to_int32 (x : R) : Z :=
  ((truncZ x + 2 ^ 31) mod 2 ^ 32 - 2 ^ 31)%Z.

Definition to_uint8 (x : R) : Z := (truncZ x mod 256)%Z.

(** Round to the nearest integer, ties to even, and clamp to [0, 255]. *)
Definition to_uint8_clamped (x : R) : Z :=
  if Rle_dec x 0 then 0%Z
  else if Rle_dec 255 x then 255%Z
  else
    let q := floorZ x in
    let rem := x - IZR q in
    if Rlt_dec rem (1 / 2) then q
    else if Rlt_dec (1 / 2) rem then (q + 1)%Z
    else if Z.even q then q else (q + 1)%Z.

(** Every integer is a loop bound a counter reaches. *)
Definition as_count (x : R) : option Z :=
  if Req_dec_T x (IZR (floorZ x)) then Some (floorZ x) else None.

(** The power: a natural exponent by multiplication, 0.25 by two square
    roots, and any other exponent as the power of a positive base. *)
Definition rpow (b e : R) : R :=
  match as_count e with
  | Some n => if (0 <=? n)%Z then b ^ Z.to_nat n else / b ^ Z.to_nat (- n)
  | None => if Req_dec_T e (1 / 4) then sqrt (sqrt b) else Rpower b e
  end.
End Exact.

(** There is no NaN among the reals: [NaN] stands for the value of an
    out-of-range read, which the generator never makes (its indices are
    clamped to the array). *)
Definition exact : Number := {|
  num := R;
  of_Z := IZR;
  NaN := 0%R;
  add := Rplus;
  sub := Rminus;
  mul := Rmult;
  div := Rdiv;
  neg := Ropp;
  ltb := Exact.Rltb;
  leb := Exact.Rleb;
  Math_abs := Rabs;
  Math_sqrt := sqrt;
  Math_floor := fun x => IZR (Exact.floorZ x);
  Math_ceil := fun x => IZR (Exact.ceilZ x);
  Math_min := Rmin;
  Math_max := Rmax;
  Math_pow := Exact.rpow;
  to_int32 := Exact.to_int32;
  as_count := Exact.as_count;
  fround := fun x => x;
  to_uint8 := Exact.to_uint8;
  to_uint8_clamped := Exact.to_uint8_clamped
|}.

(* ------------------------------------------------------------------ *)
(** * Definitions used in the statements *)

(** A sequence of assignments [arr[i] = v], in order. *)
Definition apply_writes {A} (ws : list (Z * A)) (arr : list A) : list A :=
  foldl (fun a w => write a w.1 w.2) arr ws.

(** Channel [c] (0 to 3 for R, G, B, A) of pixel [(x, y)] in an RGBA buffer
    of the given width. *)
Definition channel (width : Z) (data : list Z) (x y c : Z) : option Z :=
  data !! Z.to_nat ((y * width + x) * 4 + c).

(** The four bytes the packing loop stores for pixel [(x, y)]. *)
Definition pixel_bytes `{Number} (width height : Z) (heightMap : list num)
    (x y : Z) : list Z :=
  let '(R, G, B, A) := pixel_rgba width height heightMap x y in
  [to_uint8_clamped R; to_uint8_clamped G; to_uint8_clamped B;
   to_uint8_clamped A].

Definition pixel_writes `{Number} (width height : Z) (heightMap : list num)
    (y x : Z) : list (Z * Z) :=
  let i := (y * width + x) * 4 in
  imap (fun c v => (i + Z.of_nat c, v)) (pixel_bytes width height heightMap x y).

(** The erosion ends when it is skipped or its kernel is a count. *)
Definition erosion_ends `{Number} (tension : num) : bool :=
  negb (ltb (of_Z 0) tension)
  || bool_decide (is_Some (as_count (erosion_kernel tension))).

(** An index clamped to [0 .. n-1]. *)
Definition clamp_index (n i : Z) : Z := Z.min (n - 1) (Z.max 0 i).

(** The value of [tempMap] at pixel [(x, y)] after the horizontal pass of
    radius [kernel]. *)
Definition horizontal_height `{Number} (width height : Z) (radius bezel : num)
    (shape : GlassShape) (profile : GlassShapeProfile) (warp : num)
    (perm : list Z) (kernel x y : Z) : num :=
  fround (blur_average kernel (fun k =>
    fround (pixel_height width height radius bezel shape profile warp perm
              (clamp_index width (x + k)) y))).

(** The height of pixel [(x, y)] after an erosion of radius [kernel]: the
    vertical average of the horizontal averages of the profiled heights,
    each stored in single precision. *)
Definition eroded_height `{Number} (width height : Z) (radius bezel : num)
    (shape : GlassShape) (profile : GlassShapeProfile) (warp : num)
    (perm : list Z) (kernel x y : Z) : num :=
  fround (blur_average kernel (fun k =>
    horizontal_height width height radius bezel shape profile warp perm kernel
      x (clamp_index height (y + k)))).

(** The height of pixel [(x, y)] after the erosion stage. *)
Definition final_height `{Number} (width height : Z) (radius bezel : num)
    (shape : GlassShape) (profile : GlassShapeProfile) (warp : num)
    (perm : list Z) (tension : num) (x y : Z) : option num :=
  (fun hm => read hm (y * width + x))
  <$> eroded_heightMap width height radius bezel shape profile warp perm tension.

(** [x] is a zero, an infinity or a finite double of sign [s]. *)
Definition signed (s : bool) (x : B64.float) : Prop :=
  match x with
  | S754_zero s' | S754_infinity s' | S754_finite s' _ _ => s' = s
  | S754_nan => False
  end.

(** A real number of the unit interval, and a double of it. *)
Definition in01 (v : R) : Prop := (0 <= v <= 1)%R.

Definition in01b (v : B64.float) : bool :=
  SFleb (B64.of_Z 0) v && SFleb v (B64.of_Z 1).

(** In double precision: every height of the three stages is in the unit
    interval and every [len] is at least 1. *)
Definition bounds_hold_binary64 (width height : Z) (radius bezel : num)
    (shape : GlassShape) (profile : GlassShapeProfile) (tension warp : num)
    (perm : list Z) : bool :=
  let hm0 :=
    profiled_heightMap width height radius bezel shape profile warp perm in
  match erosion width height tension hm0
          (replicate (Z.to_nat (size width height)) (of_Z 0)) with
  | Some (hm, tm) =>
      forallb in01b hm0 && forallb in01b tm && forallb in01b hm
      && forallb (fun y => forallb (fun x =>
           leb (of_Z 1) (normal_len width height hm x y)) (seqZ 0 width))
           (seqZ 0 height)
  | None => false
  end.

(** Half the side of a square image, as a real number. *)
Definition half_side (n : Z) : R := (IZR n / 2)%R.

(** Surroundings used in the examples.  In [env_ones] every draw of
    [Math.random()] is 0.005, so that every entry of [perm] is 1. *)
Definition env_ones : Env :=
  {| has_context := true; random := fun _ => lit 5 1000 |}.

Definition env_no_context : Env :=
  {| has_context := false; random := fun _ => lit 5 1000 |}.

Definition env_other : Env :=
  {| has_context := true; random := fun i => lit (Z.of_nat i) 512 |}.

Definition infinity : num := S754_infinity false.

(** Unfolds the operations of [exact] to those of the real numbers. *)
Ltac exact_ops :=
  cbn [exact num of_Z NaN add sub mul div neg ltb leb Math_abs Math_sqrt
       Math_floor Math_ceil Math_min Math_max Math_pow to_int32 as_count
       fround to_uint8 to_uint8_clamped] in *.

(* ------------------------------------------------------------------ *)
(** * Further definitions used in the statements *)

(** A double that is a number: not NaN and not an infinity. *)
Definition is_finite (x : B64.float) : bool :=
  match x with
  | S754_zero _ | S754_finite _ _ _ => true
  | _ => false
  end.

(** The bytes of an image, pixel after pixel in row-major order. *)
Definition image_bytes `{Number} (width height : Z) (heightMap : list num)
    : list Z :=
  y ← seqZ 0 height; x ← seqZ 0 width; pixel_bytes width height heightMap x y.

(** The pixels within [n] of [(x, y)] in both directions. *)
Definition near (n x y x' y' : Z) : Prop :=
  Z.abs (x' - x) <= n /\ Z.abs (y' - y) <= n.

(** The sum of [f] over the window [-kernel .. kernel], and the mean of
    [f] over the square window. *)
Definition window_sum (kernel : Z) (f : Z -> R) : R :=
  foldr Rplus 0%R (f <$> seqZ (- kernel) (2 * kernel + 1)).

Definition box_mean (kernel : Z) (f : Z -> Z -> R) : R :=
  (window_sum kernel (fun j => window_sum kernel (fun i => f i j))
   / (IZR (2 * kernel + 1) * IZR (2 * kernel + 1)))%R.

(* ------------------------------------------------------------------ *)
(** * The component that uses the map ([GlassBubble], src/flat.tsx) *)

Module GlassBubble.

(** [s.replace(/[:]/g, '')] *)
Fixpoint remove_colons (s : string) : string :=
  match s with
  | EmptyString => EmptyString
  | String c s' =>
      if Ascii.eqb c ":"%char then remove_colons s'
      else String c (remove_colons s')
  end.

(** [filterId], from the [rawId] that [useId()] gives. *)
Definition filterId (rawId : string) : string :=
  "liquid-glass-" +:+ remove_colons rawId.

(** The state [dimensions]: the rounded size of the container. *)
Record Dimensions := {
  width : Z;
  height : Z
}.

(** The effect that generates the map, with its timeout run: the value of
    the state [mapUrl] afterwards, given the one before.  It calls the
    generator with the profile ['convex'], the tension [2.0] and the
    default warp [0.0].  [None]: the call does not return. *)
Definition generate_effect `{Number} (env : Env) (dimensions : Dimensions)
    (radius bezel : num) (shape : GlassShape) (mapUrl : Url) : option Url :=
  if (width dimensions =? 0) || (height dimensions =? 0) then Some mapUrl
  else
    match generateGlassMaps env (width dimensions) (height dimensions)
            radius bezel shape convex (of_Z 2) (of_Z 0) with
    | Some maps => Some (surfaceUrl maps)
    | None => None
    end.
End GlassBubble.

(* ------------------------------------------------------------------ *)
(** * The application state ([MetaGlassApp], src/flat.tsx) *)

(** The window list and the log of [MetaGlassApp], and the actions on them:
    [addLog], [toggleWindow] and [focusWindow].  Each action hands React an
    updater [prev => next]; an action is embedded as the state after React
    has applied the updaters it queued, each once.  [toggleWindow] calls
    [addLog] from inside its updater, so it acts on both parts of the
    state. *)
Module MetaGlassApp.

(** A [zIndex]: an integer, or the [-Infinity] that [Math.max()] gives when
    it is called with no argument.  The integers are exact in a JavaScript
    number below [2^53]. *)
Inductive number := NegInfinity | Int (z : Z).

#[export] Instance number_eq_dec : EqDecision number.
Proof. solve_decision. Defined.

(** [a === b] *)
Definition number_eqb (a b : number) : bool :=
  match a, b with
  | NegInfinity, NegInfinity => true
  | Int x, Int y => (x =? y)%Z
  | _, _ => false
  end.

(** [Math.max(a, b)] *)
Definition max2 (a b : number) : number :=
  match a, b with
  | NegInfinity, _ => b
  | _, NegInfinity => a
  | Int x, Int y => Int (Z.max x y)
  end.

(** [Math.max(...zs)] *)
Definition Math_max_of (zs : list number) : number := foldr max2 NegInfinity zs.

(** [a + 1] *)
Definition plus_one (a : number) : number :=
  match a with
  | NegInfinity => NegInfinity
  | Int z => Int (z + 1)
  end.

(** An entry of [windows].  Its [icon], an element no action reads, is left
    out. *)
Record Window := {
  id : string;
  isOpen : bool;
  zIndex : number;
  title : string
}.

Inductive LogType := info | action | system.

(** A [LogEntry]; [logId] is its [id]. *)
Record LogEntry := {
  logId : Z;
  timestamp : string;
  message : string;
  type : LogType
}.

Record State := {
  windows : list Window;
  logs : list LogEntry
}.

(** What an action reads from the clock: [Date.now()] and
    [new Date().toLocaleTimeString()]. *)
Record Clock := {
  Date_now : Z;
  toLocaleTimeString : string
}.

(** [arr.slice(-n)]: the last [n] elements, or all of them. *)
Definition slice_last {A} (n : nat) (arr : list A) : list A :=
  drop (length arr - n) arr.

(** The updater of [addLog(message, type)]. *)
Definition addLog (clock : Clock) (message : string) (type : LogType)
    (prev : list LogEntry) : list LogEntry :=
  let newLogs :=
    prev ++ [ {| logId := Date_now clock;
                 timestamp := toLocaleTimeString clock;
                 message := message;
                 type := type |} ] in
  slice_last 50 newLogs.

(** [prev.find(w => w.id === id)] *)
Definition find_window (id0 : string) (prev : list Window) : option Window :=
  find (fun w => String.eqb (id w) id0) prev.

(** [toggleWindow(id)] *)
Definition toggleWindow (clock : Clock) (id0 : string) (s : State) : State :=
  let prev := windows s in
  match find_window id0 prev with
  | None => s
  | Some target =>
      let wasOpen := isOpen target in
      let logs' :=
        if negb wasOpen
        then addLog clock ("Process spawned: " +:+ title target) system (logs s)
        else logs s in
      let maxZ := Math_max_of (zIndex <$> prev) in
      {| windows :=
           (fun w =>
              if String.eqb (id w) id0
              then {| id := id w;
                      isOpen := negb wasOpen;
                      zIndex := if negb wasOpen then plus_one maxZ
                                else zIndex w;
                      title := title w |}
              else w) <$> prev;
         logs := logs' |}
  end.

(** [focusWindow(id)] *)
Definition focusWindow (id0 : string) (s : State) : State :=
  let prev := windows s in
  let target := find_window id0 prev in
  let maxZ := Math_max_of (zIndex <$> prev) in
  if match target with
     | Some target => number_eqb (zIndex target) maxZ
     | None => false
     end
  then s
  else
    {| windows :=
         (fun w =>
            {| id := id w;
               isOpen := isOpen w;
               zIndex := if String.eqb (id w) id0 then plus_one maxZ
                         else zIndex w;
               title := title w |}) <$> prev;
       logs := logs s |}.

(** The state [MetaGlassApp] starts in. *)
Definition initial (clock : Clock) : State :=
  {| windows :=
       [ {| id := "controls"; isOpen := true; zIndex := Int 10;
            title := "Controls" |};
         {| id := "code"; isOpen := false; zIndex := Int 9;
            title := "Code I/O" |};
         {| id := "console"; isOpen := false; zIndex := Int 8;
            title := "Console" |} ];
     logs :=
       [ {| logId := 1;
            timestamp := toLocaleTimeString clock;
            message := "System initialized. Performance mode active.";
            type := system |} ] |}.

(** One action of the application on the windows and the log. *)
Inductive step : State -> State -> Prop :=
  | step_toggleWindow clock id0 s :
      step s (toggleWindow clock id0 s)
  | step_focusWindow id0 s :
      step s (focusWindow id0 s)
  | step_addLog clock message type s :
      step s {| windows := windows s;
                logs := addLog clock message type (logs s) |}.

(** [a < b] and [a <= b] on [zIndex] values. *)
Definition lt (a b : number) : Prop :=
  match a, b with
  | _, NegInfinity => False
  | NegInfinity, Int _ => True
  | Int x, Int y => x < y
  end.

Definition le (a b : number) : Prop :=
  match a, b with
  | NegInfinity, _ => True
  | Int _, NegInfinity => False
  | Int x, Int y => x <= y
  end.

Definition is_Int (a : number) : Prop :=
  match a with Int _ => True | NegInfinity => False end.

(** Windows with distinct ids and distinct integer [zIndex] values. *)
Definition well_formed (ws : list Window) : Prop :=
  NoDup (id <$> ws) /\ NoDup (zIndex <$> ws) /\
  Forall (fun w => is_Int (zIndex w)) ws.

(** The windows after [toggleWindow] and [focusWindow], when they change
    the state. *)
Definition toggled (id0 : string) (wasOpen : bool) (maxZ : number)
    (w : Window) : Window :=
  if String.eqb (id w) id0
  then {| id := id w; isOpen := negb wasOpen;
          zIndex := if negb wasOpen then plus_one maxZ else zIndex w;
          title := title w |}
  else w.

Definition focused (id0 : string) (maxZ : number) (w : Window) : Window :=
  {| id := id w; isOpen := isOpen w;
     zIndex := if String.eqb (id w) id0 then plus_one maxZ else zIndex w;
     title := title w |}.
End MetaGlassApp.

(* ------------------------------------------------------------------ *)
(** * The double-precision model on known values *)

(** The literal 0.02 is the double 0x3F947AE147AE147B. *)
Example literal_0_02 : lit 2 100 = S754_finite false 5764607523034235 (-58).
Proof. reflexivity. Qed.

(** 0.1 + 0.2 is 0.30000000000000004 (0x3FD3333333333334), and 0.7 - 1 is
    -0.30000000000000004. *)
Example sum_of_tenths :
  add (lit 1 10) (lit 2 10) = S754_finite false 5404319552844596 (-54) /\
  sub (lit 7 10) (of_Z 1) = S754_finite true 5404319552844596 (-54).
Proof. split; reflexivity. Qed.

(** [Math.fround(0.1)] is the single 0x3DCCCCCD, that is 13421773 * 2^-27. *)
Example fround_0_1 :
  fround (lit 1 10) = S754_finite false (13421773 * 2 ^ 29) (-56).
Proof. reflexivity. Qed.

(** A [Uint8ClampedArray] rounds ties to even and clamps. *)
Example clamped_bytes :
  to_uint8_clamped <$> [lit 1 2; lit 3 2; lit 5 2; lit 255 2; of_Z 300; of_Z (-4)]
  = [0; 2; 2; 128; 255; 0].
Proof. reflexivity. Qed.

Example floor_and_ceil :
  Math_floor (lit (-1) 2) = of_Z (-1) /\ Math_floor (lit 7 2) = of_Z 3 /\
  Math_ceil (lit 3 2) = of_Z 2 /\ Math_ceil (lit (-1) 2) = S754_zero true.
Proof. repeat split; reflexivity. Qed.

(** The noise vanishes on the lattice. *)
Example noise2d_lattice :
  noise2d (make_perm (random env_other)) (of_Z 3) (of_Z 7) = of_Z 0.
Proof. vm_compute. reflexivity. Qed.

(* ------------------------------------------------------------------ *)
(** * Loops that fill an array *)

(** Loops with the same body on the range are the same loop. *)
Lemma for_range_ext {S} (lo n : Z) (f g : Z -> S -> S) (s : S) :
  (forall i s, lo <= i < lo + n -> f i s = g i s) ->
  for_range lo n f s = for_range lo n g s.
Proof.
  intros Hfg. unfold for_range.
  assert (Hin : forall i, i ∈ seqZ lo n -> lo <= i < lo + n)
    by (intros i; apply elem_of_seqZ).
  revert s Hin. induction (seqZ lo n) as [|i l IH]; intros s Hin; [done|].
  cbn. rewrite Hfg by (apply Hin; left). apply IH.
  intros j Hj. apply Hin. by right.
Qed.

Section Writes.
Context {A : Type}.

Lemma apply_writes_cons (w : Z * A) ws arr :
  apply_writes (w :: ws) arr = apply_writes ws (write arr w.1 w.2).
Proof. reflexivity. Qed.

Lemma apply_writes_app ws1 ws2 (arr : list A) :
  apply_writes (ws1 ++ ws2) arr = apply_writes ws2 (apply_writes ws1 arr).
Proof. apply foldl_app. Qed.

Lemma write_length (arr : list A) i v : length (write arr i v) = length arr.
Proof. unfold write. destruct (i <? 0); [done | apply length_insert]. Qed.

Lemma apply_writes_length ws : forall arr : list A,
  length (apply_writes ws arr) = length arr.
Proof.
  induction ws as [|w ws IH]; intros arr; [done|].
  rewrite apply_writes_cons, IH. apply write_length.
Qed.

Lemma write_lookup_ne (arr : list A) i j v :
  0 <= i -> i <> j -> write arr j v !! Z.to_nat i = arr !! Z.to_nat i.
Proof.
  intros Hi Hne. unfold write. destruct (Z.ltb_spec j 0); [done|].
  apply list_lookup_insert_ne. lia.
Qed.

Lemma write_lookup_eq (arr : list A) i v :
  0 <= i -> (Z.to_nat i < length arr)%nat ->
  write arr i v !! Z.to_nat i = Some v.
Proof.
  intros Hi Hlen. unfold write. destruct (Z.ltb_spec i 0); [lia|].
  by apply list_lookup_insert_eq.
Qed.

(** An index no assignment names keeps its value. *)
Lemma apply_writes_untouched ws : forall (arr : list A) i,
  0 <= i -> (forall v, (i, v) ∉ ws) ->
  apply_writes ws arr !! Z.to_nat i = arr !! Z.to_nat i.
Proof.
  induction ws as [|[j u] ws IH]; intros arr i Hi Hno; [done|].
  rewrite apply_writes_cons, IH; [|done|]; cbn.
  - apply write_lookup_ne; [done|]. intros ->. apply (Hno u). left.
  - intros v Hv. apply (Hno v). by right.
Qed.

Lemma writes_to_dec (ws : list (Z * A)) i :
  (exists v, (i, v) ∈ ws) \/ (forall v, (i, v) ∉ ws).
Proof.
  induction ws as [|[j u] ws [[v Hv]|Hno]].
  - right. intros v Hv. by apply elem_of_nil in Hv.
  - left. exists v. by right.
  - destruct (Z.eq_dec i j) as [->|Hne].
    + left. exists u. left.
    + right. intros v Hv. apply elem_of_cons in Hv as [[=]|Hv]; [done|].
      by apply (Hno v).
Qed.

(** An index all of whose assignments carry the same value holds it. *)
Lemma apply_writes_lookup ws : forall (arr : list A) i v,
  0 <= i -> (Z.to_nat i < length arr)%nat ->
  (i, v) ∈ ws -> (forall v', (i, v') ∈ ws -> v' = v) ->
  apply_writes ws arr !! Z.to_nat i = Some v.
Proof.
  induction ws as [|[j u] ws IH]; intros arr i v Hi Hlen Hin Hsame.
  - by apply elem_of_nil in Hin.
  - rewrite apply_writes_cons. cbn.
    destruct (writes_to_dec ws i) as [[v' Hv']|Hno].
    + assert (v' = v) as -> by (apply Hsame; by right).
      apply IH; [done| by rewrite write_length |done|].
      intros v'' Hv''. apply Hsame. by right.
    + rewrite apply_writes_untouched; [|done|done].
      apply elem_of_cons in Hin as [[= <- <-]|Hin]; [|by apply Hno in Hin].
      by apply write_lookup_eq.
Qed.

(** Two nested [for] loops whose body is a sequence of assignments. *)
Lemma for_range_writes (lo1 n1 lo2 n2 : Z) (W : Z -> Z -> list (Z * A)) arr :
  for_range lo1 n1 (fun a =>
    for_range lo2 n2 (fun b s => apply_writes (W a b) s)) arr
  = apply_writes (a ← seqZ lo1 n1; b ← seqZ lo2 n2; W a b) arr.
Proof.
  unfold for_range. generalize (seqZ lo1 n1) as l1. intros l1. revert arr.
  induction l1 as [|a l1 IH]; intros arr; [done|].
  cbn [foldl mbind list_bind]. rewrite apply_writes_app, <- IH. f_equal.
  generalize (seqZ lo2 n2) as l2. intros l2. revert arr. clear IH.
  induction l2 as [|b l2 IH]; intros arr; [done|].
  cbn [foldl mbind list_bind]. by rewrite apply_writes_app, <- IH.
Qed.

Lemma elem_of_nested_writes (lo1 n1 lo2 n2 : Z) (W : Z -> Z -> list (Z * A)) w :
  w ∈ (a ← seqZ lo1 n1; b ← seqZ lo2 n2; W a b) <->
  exists a b, lo1 <= a < lo1 + n1 /\ lo2 <= b < lo2 + n2 /\ w ∈ W a b.
Proof.
  rewrite list_elem_of_bind. split.
  - intros (a & Hw & Ha). apply list_elem_of_bind in Hw as (b & Hw & Hb).
    apply elem_of_seqZ in Ha, Hb. eauto.
  - intros (a & b & Ha & Hb & Hw). exists a. split; [|by apply elem_of_seqZ].
    apply list_elem_of_bind. exists b. split; [done | by apply elem_of_seqZ].
Qed.
End Writes.

(** Row-major indices of distinct pixels are distinct. *)
Lemma pixel_index_inj (w x y x' y' : Z) :
  0 <= x < w -> 0 <= x' < w -> y * w + x = y' * w + x' -> x = x' /\ y = y'.
Proof. intros Hx Hx' Heq. assert (y = y') by nia. subst. lia. Qed.

Lemma pixel_index_bound (w h x y : Z) :
  0 <= x < w -> 0 <= y < h -> 0 <= y * w + x < w * h.
Proof. nia. Qed.

Section Fill.
Context {A : Type}.

(** Nested loops over [a] and [b] that assign [val a b] to the index
    [idx a b], distinct for distinct [(a, b)]: afterwards every index of
    the range holds its value. *)
Lemma nested_fill_lookup (idx : Z -> Z -> Z) (val : Z -> Z -> A)
    (lo1 n1 lo2 n2 : Z) (arr : list A) (a b : Z) :
  (forall a' b', lo1 <= a' < lo1 + n1 -> lo2 <= b' < lo2 + n2 ->
                 idx a' b' = idx a b -> a' = a /\ b' = b) ->
  lo1 <= a < lo1 + n1 -> lo2 <= b < lo2 + n2 ->
  0 <= idx a b -> (Z.to_nat (idx a b) < length arr)%nat ->
  for_range lo1 n1 (fun a =>
    for_range lo2 n2 (fun b s => write s (idx a b) (val a b))) arr
    !! Z.to_nat (idx a b) = Some (val a b).
Proof.
  intros Hinj Ha Hb Hi Hlen.
  rewrite (for_range_writes lo1 n1 lo2 n2 (fun a b => [(idx a b, val a b)])).
  apply apply_writes_lookup; [done|done| |].
  - apply elem_of_nested_writes. exists a, b. split; [done|]. split; [done|].
    by apply list_elem_of_singleton.
  - intros v' Hv'.
    apply elem_of_nested_writes in Hv' as (a' & b' & Ha' & Hb' & Hv').
    apply list_elem_of_singleton in Hv'. injection Hv' as Hidx ->.
    symmetry in Hidx.
    destruct (Hinj a' b' Ha' Hb' Hidx) as [-> ->]. done.
Qed.

Lemma nested_fill_length (idx : Z -> Z -> Z) (val : Z -> Z -> A)
    (lo1 n1 lo2 n2 : Z) (arr : list A) :
  length (for_range lo1 n1 (fun a =>
    for_range lo2 n2 (fun b s => write s (idx a b) (val a b))) arr)
  = length arr.
Proof.
  rewrite (for_range_writes lo1 n1 lo2 n2 (fun a b => [(idx a b, val a b)])).
  apply apply_writes_length.
Qed.
End Fill.

(** A property the body keeps holds after the loop. *)
Lemma for_range_invariant {S} (P : S -> Prop) (lo n : Z) (body : Z -> S -> S) s :
  P s -> (forall i s, lo <= i < lo + n -> P s -> P (body i s)) ->
  P (for_range lo n body s).
Proof.
  intros Hs Hbody. unfold for_range.
  assert (Hin : forall i, i ∈ seqZ lo n -> lo <= i < lo + n)
    by (intros i; apply elem_of_seqZ).
  revert s Hs Hin. induction (seqZ lo n) as [|i l IH]; intros s Hs Hin; [done|].
  cbn. apply IH.
  - apply Hbody; [|done]. apply Hin. left.
  - intros j Hj. apply Hin. by right.
Qed.

Lemma write_Forall {A} (P : A -> Prop) (arr : list A) i v :
  Forall P arr -> P v -> Forall P (write arr i v).
Proof.
  intros Harr Hv. unfold write. destruct (i <? 0); [done|].
  by apply Forall_insert.
Qed.

(** Nested loops that assign values with a property to an array that has
    it leave an array that has it. *)
Lemma nested_fill_Forall {A} (P : A -> Prop) (idx : Z -> Z -> Z)
    (val : Z -> Z -> A) (lo1 n1 lo2 n2 : Z) (arr : list A) :
  Forall P arr -> (forall a b, P (val a b)) ->
  Forall P (for_range lo1 n1 (fun a =>
    for_range lo2 n2 (fun b s => write s (idx a b) (val a b))) arr).
Proof.
  intros Harr Hval.
  apply (for_range_invariant (Forall P)); [done|]. intros a s _ Hs.
  apply (for_range_invariant (Forall P)); [done|]. intros b s' _ Hs'.
  by apply write_Forall.
Qed.

Section Stages.
Context `{Number}.
Variables (width height : Z) (radius bezel : num).
Variables (shape : GlassShape) (profile : GlassShapeProfile).
Variables (warp : num) (perm : list Z).

Lemma read_lookup (arr : list num) i v :
  0 <= i -> arr !! Z.to_nat i = Some v -> read arr i = v.
Proof.
  intros Hi Hv. unfold read. destruct (Z.ltb_spec i 0); [lia|]. by rewrite Hv.
Qed.

Lemma in_range_index x y :
  0 <= x < width -> 0 <= y < height ->
  0 <= y * width + x /\
  (Z.to_nat (y * width + x) < Z.to_nat (width * height))%nat.
Proof.
  intros Hx Hy. pose proof (pixel_index_bound width height x y Hx Hy). lia.
Qed.

Lemma row_major_read (val : Z -> Z -> num) arr x y :
  length arr = Z.to_nat (width * height) ->
  0 <= x < width -> 0 <= y < height ->
  read (for_range 0 height (fun y =>
          for_range 0 width (fun x s => write s (y * width + x) (val x y))) arr)
       (y * width + x) = val x y.
Proof.
  intros Hlen Hx Hy. destruct (in_range_index x y Hx Hy) as [H0 H1].
  apply read_lookup; [done|].
  apply (nested_fill_lookup (fun y x => y * width + x) (fun y x => val x y));
    [|lia|lia|done|by rewrite Hlen].
  intros y' x' Hy' Hx' Heq.
  destruct (pixel_index_inj width x' y' x y) as [-> ->]; [lia|lia|done|done].
Qed.

Lemma column_major_read (val : Z -> Z -> num) arr x y :
  length arr = Z.to_nat (width * height) ->
  0 <= x < width -> 0 <= y < height ->
  read (for_range 0 width (fun x =>
          for_range 0 height (fun y s => write s (y * width + x) (val x y))) arr)
       (y * width + x) = val x y.
Proof.
  intros Hlen Hx Hy. destruct (in_range_index x y Hx Hy) as [H0 H1].
  apply read_lookup; [done|].
  apply (nested_fill_lookup (fun x y => y * width + x) val);
    [|lia|lia|done|by rewrite Hlen].
  intros x' y' Hx' Hy' Heq.
  destruct (pixel_index_inj width x' y' x y) as [-> ->]; [lia|lia|done|done].
Qed.

(** ** The height field, pixel by pixel *)

Lemma profile_pass_length hm :
  length (profile_pass width height radius bezel shape profile warp perm hm)
  = length hm.
Proof. apply nested_fill_length. Qed.

Lemma profile_pass_read hm x y :
  length hm = Z.to_nat (width * height) ->
  0 <= x < width -> 0 <= y < height ->
  read (profile_pass width height radius bezel shape profile warp perm hm)
       (y * width + x)
  = fround (pixel_height width height radius bezel shape profile warp perm x y).
Proof.
  apply (row_major_read (fun x y =>
    fround (pixel_height width height radius bezel shape profile warp perm x y))).
Qed.

Lemma horizontal_pass_length kernel hm tm :
  length (horizontal_pass width height kernel hm tm) = length tm.
Proof. apply nested_fill_length. Qed.

Lemma horizontal_pass_read kernel hm tm x y :
  length tm = Z.to_nat (width * height) ->
  0 <= x < width -> 0 <= y < height ->
  read (horizontal_pass width height kernel hm tm) (y * width + x)
  = fround (blur_average kernel (horizontal_sample width hm x y)).
Proof.
  apply (row_major_read (fun x y =>
    fround (blur_average kernel (horizontal_sample width hm x y)))).
Qed.

Lemma vertical_pass_length kernel tm hm :
  length (vertical_pass width height kernel tm hm) = length hm.
Proof. apply nested_fill_length. Qed.

Lemma vertical_pass_read kernel tm hm x y :
  length hm = Z.to_nat (width * height) ->
  0 <= x < width -> 0 <= y < height ->
  read (vertical_pass width height kernel tm hm) (y * width + x)
  = fround (blur_average kernel (vertical_sample width height tm x y)).
Proof.
  apply (column_major_read (fun x y =>
    fround (blur_average kernel (vertical_sample width height tm x y)))).
Qed.

Lemma profiled_heightMap_length :
  length (profiled_heightMap width height radius bezel shape profile warp perm)
  = Z.to_nat (width * height).
Proof.
  unfold profiled_heightMap. rewrite profile_pass_length.
  apply length_replicate.
Qed.

(** Before the erosion, pixel [(x, y)] holds the rounded [pixel_height]. *)
Lemma profiled_heightMap_read x y :
  0 <= x < width -> 0 <= y < height ->
  read (profiled_heightMap width height radius bezel shape profile warp perm)
       (y * width + x)
  = fround (pixel_height width height radius bezel shape profile warp perm x y).
Proof.
  intros Hx Hy. unfold profiled_heightMap.
  apply profile_pass_read; [apply length_replicate|done|done].
Qed.
End Stages.

Section Packing.
Context `{Number}.
Variables (width height : Z).

Lemma pack_pass_writes heightMap data :
  pack_pass width height heightMap data
  = apply_writes (y ← seqZ 0 height; x ← seqZ 0 width;
                  pixel_writes width height heightMap y x) data.
Proof.
  rewrite <- for_range_writes. unfold pack_pass.
  apply for_range_ext. intros y s _. apply for_range_ext. intros x d _.
  unfold pixel_writes, pixel_bytes.
  destruct (pixel_rgba width height heightMap x y) as [[[R G] B] A].
  cbn. by rewrite Z.add_0_r.
Qed.

Lemma pack_pass_length heightMap data :
  length (pack_pass width height heightMap data) = length data.
Proof. rewrite pack_pass_writes. apply apply_writes_length. Qed.

Lemma pixel_bytes_length heightMap x y :
  length (pixel_bytes width height heightMap x y) = 4%nat.
Proof.
  unfold pixel_bytes.
  by destruct (pixel_rgba width height heightMap x y) as [[[R G] B] A].
Qed.

Lemma elem_of_pixel_writes heightMap y x i v :
  (i, v) ∈ pixel_writes width height heightMap y x <->
  exists c, (c < 4)%nat /\ i = (y * width + x) * 4 + Z.of_nat c /\
            pixel_bytes width height heightMap x y !! c = Some v.
Proof.
  unfold pixel_writes. rewrite elem_of_lookup_imap. split.
  - intros (c & v' & [= -> ->] & Hc). exists c. split_and!; [|done|done].
    apply lookup_lt_Some in Hc. by rewrite pixel_bytes_length in Hc.
  - intros (c & Hc & -> & Hv). by exists c, v.
Qed.

(** After the packing loop, channel [c] of pixel [(x, y)] is the byte the
    loop stored for it. *)
Lemma pack_pass_channel heightMap data x y (c : nat) :
  length data = Z.to_nat (width * height * 4) ->
  0 <= x < width -> 0 <= y < height -> (c < 4)%nat ->
  channel width (pack_pass width height heightMap data) x y (Z.of_nat c)
  = pixel_bytes width height heightMap x y !! c.
Proof.
  intros Hlen Hx Hy Hc. unfold channel. rewrite pack_pass_writes.
  pose proof (pixel_index_bound width height x y Hx Hy) as Hb.
  destruct (lookup_lt_is_Some_2 (pixel_bytes width height heightMap x y) c) as [v Hv];
    [by rewrite pixel_bytes_length|].
  rewrite Hv. apply apply_writes_lookup; [lia|lia| |].
  - apply elem_of_nested_writes. exists y, x. split; [lia|]. split; [lia|].
    apply elem_of_pixel_writes. by exists c.
  - intros v' Hv'.
    apply elem_of_nested_writes in Hv' as (y' & x' & Hy' & Hx' & Hv').
    apply elem_of_pixel_writes in Hv' as (c' & Hc' & Hidx & Hv').
    assert (y' * width + x' = y * width + x /\ c' = c) as [Heq ->] by lia.
    destruct (pixel_index_inj width x' y' x y) as [-> ->]; [lia|lia|done|].
    congruence.
Qed.
End Packing.

Lemma createImageData_length width height :
  length (createImageData width height) = Z.to_nat (width * height * 4).
Proof. apply length_replicate. Qed.

Section Erosion.
Context `{Number}.
Variables (width height : Z) (radius bezel : num).
Variables (shape : GlassShape) (profile : GlassShapeProfile).
Variables (warp : num) (perm : list Z).

Lemma blur_sum_ext kernel (s1 s2 : Z -> num) :
  (forall k, - kernel <= k <= kernel -> s1 k = s2 k) ->
  blur_sum kernel s1 = blur_sum kernel s2.
Proof.
  intros Heq. unfold blur_sum. apply for_range_ext.
  intros k [sum weight] Hk. rewrite Heq; [done | lia].
Qed.

Lemma blur_average_ext kernel (s1 s2 : Z -> num) :
  (forall k, - kernel <= k <= kernel -> s1 k = s2 k) ->
  blur_average kernel s1 = blur_average kernel s2.
Proof. intros Heq. unfold blur_average. by rewrite (blur_sum_ext _ _ _ Heq). Qed.

Lemma erosion_is_Some tension hm tm :
  is_Some (erosion width height tension hm tm) <-> erosion_ends tension = true.
Proof.
  unfold erosion, erosion_ends.
  destruct (ltb (of_Z 0) tension); cbn.
  - rewrite bool_decide_eq_true.
    destruct (as_count (erosion_kernel tension)); split; intros [? ?]; eauto;
      discriminate.
  - split; eauto.
Qed.

Lemma eroded_heightMap_is_Some tension :
  is_Some (eroded_heightMap width height radius bezel shape profile warp perm
             tension) <-> erosion_ends tension = true.
Proof.
  unfold eroded_heightMap. rewrite fmap_is_Some. apply erosion_is_Some.
Qed.

Lemma clamp_index_range n i : 0 < n -> 0 <= clamp_index n i < n.
Proof. unfold clamp_index. lia. Qed.

Lemma eroded_heightMap_skipped tension :
  ltb (of_Z 0) tension = false ->
  eroded_heightMap width height radius bezel shape profile warp perm tension
  = Some (profiled_heightMap width height radius bezel shape profile warp perm).
Proof. intros Ht. unfold eroded_heightMap, erosion. by rewrite Ht. Qed.

Lemma eroded_heightMap_blurred tension kernel :
  ltb (of_Z 0) tension = true ->
  as_count (erosion_kernel tension) = Some kernel ->
  exists hm,
    eroded_heightMap width height radius bezel shape profile warp perm tension
      = Some hm /\
    length hm = Z.to_nat (width * height) /\
    forall x y, 0 <= x < width -> 0 <= y < height ->
      read hm (y * width + x)
      = eroded_height width height radius bezel shape profile warp perm
          kernel x y.
Proof.
  intros Ht Hk. unfold eroded_heightMap, erosion. rewrite Ht, Hk. cbn.
  eexists. split; [done|]. split.
  - rewrite vertical_pass_length. apply profiled_heightMap_length.
  - intros x y Hx Hy.
    rewrite vertical_pass_read; [|apply profiled_heightMap_length|done|done].
    unfold eroded_height. f_equal. apply blur_average_ext. intros k _.
    unfold vertical_sample. fold (clamp_index height (y + k)).
    pose proof (clamp_index_range height (y + k) ltac:(lia)) as Hpy.
    rewrite horizontal_pass_read; [|apply length_replicate|done|done].
    unfold horizontal_height. f_equal. apply blur_average_ext. intros k' _.
    unfold horizontal_sample. fold (clamp_index width (x + k')).
    pose proof (clamp_index_range width (x + k') ltac:(lia)) as Hpx.
    by apply profiled_heightMap_read.
Qed.

(** ** The bytes of a pixel *)

Lemma pixel_bytes_blue hm x y :
  pixel_bytes width height hm x y !! 2%nat
  = Some (to_uint8_clamped (mul (read hm (y * width + x)) (of_Z 255))).
Proof.
  unfold pixel_bytes, pixel_rgba.
  by destruct (gradient width height hm x y).
Qed.

Lemma pixel_bytes_alpha hm x y :
  pixel_bytes width height hm x y !! 3%nat
  = Some (to_uint8_clamped
            (if ltb (lit 1 100) (read hm (y * width + x))
             then of_Z 255 else of_Z 0)).
Proof.
  unfold pixel_bytes, pixel_rgba.
  by destruct (gradient width height hm x y).
Qed.

(** A call returns when the erosion ends; with positive dimensions and a
    context it returns the packed image. *)
Lemma generateGlassMaps_returns env tension hm :
  0 < width -> 0 < height -> has_context env = true -> perm = make_perm (random env) ->
  eroded_heightMap width height radius bezel shape profile warp perm tension
    = Some hm ->
  generateGlassMaps env width height radius bezel shape profile tension warp
  = Some {| surfaceUrl := PngDataUrl width height
              (pack_pass width height hm (createImageData width height)) |}.
Proof.
  intros Hw Hh Hctx -> Hhm. unfold generateGlassMaps.
  destruct (Z.leb_spec width 0); [lia|].
  destruct (Z.leb_spec height 0); [lia|]. cbn [orb].
  by rewrite Hctx, Hhm.
Qed.
End Erosion.

(* ------------------------------------------------------------------ *)
(** * The result of a call (C1) *)

Section Result.
Context `{Number}.

Lemma generateGlassMaps_empty_dims env width height radius bezel shape profile
    tension warp :
  width <= 0 \/ height <= 0 ->
  generateGlassMaps env width height radius bezel shape profile tension warp
  = Some {| surfaceUrl := EmptyUrl |}.
Proof.
  intros Hd. unfold generateGlassMaps.
  destruct (Z.leb_spec width 0); [done|].
  destruct (Z.leb_spec height 0); [done|]. lia.
Qed.

Lemma generateGlassMaps_no_context env width height radius bezel shape profile
    tension warp :
  has_context env = false ->
  generateGlassMaps env width height radius bezel shape profile tension warp
  = Some {| surfaceUrl := EmptyUrl |}.
Proof.
  intros Hc. unfold generateGlassMaps. rewrite Hc.
  by destruct (_ || _).
Qed.

Lemma generateGlassMaps_full env width height radius bezel shape profile
    tension warp :
  0 < width -> 0 < height -> has_context env = true ->
  erosion_ends tension = true ->
  exists data,
    generateGlassMaps env width height radius bezel shape profile tension warp
    = Some {| surfaceUrl := PngDataUrl width height data |} /\
    Z.of_nat (length data) = width * height * 4.
Proof.
  intros Hw Hh Hc He.
  apply (eroded_heightMap_is_Some width height radius bezel shape profile warp
           (make_perm (random env))) in He as [hm Hhm].
  eexists. split.
  - by apply (generateGlassMaps_returns _ _ _ _ _ _ _ (make_perm (random env))).
  - rewrite pack_pass_length, createImageData_length. lia.
Qed.

Lemma generateGlassMaps_hangs env width height radius bezel shape profile
    tension warp :
  0 < width -> 0 < height -> has_context env = true ->
  erosion_ends tension = false ->
  generateGlassMaps env width height radius bezel shape profile tension warp
  = None.
Proof.
  intros Hw Hh Hc He. unfold generateGlassMaps.
  destruct (Z.leb_spec width 0); [lia|].
  destruct (Z.leb_spec height 0); [lia|]. cbn [orb]. rewrite Hc. cbn [negb].
  destruct (eroded_heightMap _ _ _ _ _ _ _ _ _) as [hm|] eqn:Hhm; [|done].
  assert (erosion_ends tension = true); [|congruence].
  eapply eroded_heightMap_is_Some. by rewrite Hhm.
Qed.
End Result.

(** C1, as amended, for every arithmetic.  A call returns the empty result
    when a dimension is not positive or the canvas gives no 2D context.
    With positive dimensions, a context and an erosion that ends, it
    returns an image whose buffer has exactly [width * height * 4] bytes.
    So a returned result is empty if and only if a dimension is not
    positive or there is no context. *)
Theorem generateGlassMaps_result `{Number} (env : Env) (width height : Z)
    (radius bezel : num) (shape : GlassShape) (profile : GlassShapeProfile)
    (tension warp : num) :
  (width <= 0 \/ height <= 0 \/ has_context env = false ->
   generateGlassMaps env width height radius bezel shape profile tension warp
   = Some {| surfaceUrl := EmptyUrl |}) /\
  (0 < width -> 0 < height -> has_context env = true ->
   erosion_ends tension = true ->
   exists data,
     generateGlassMaps env width height radius bezel shape profile tension warp
     = Some {| surfaceUrl := PngDataUrl width height data |} /\
     Z.of_nat (length data) = width * height * 4) /\
  (forall res,
     generateGlassMaps env width height radius bezel shape profile tension warp
     = Some res ->
     (surfaceUrl res = EmptyUrl <->
      width <= 0 \/ height <= 0 \/ has_context env = false)).
Proof.
  assert (Hempty : width <= 0 \/ height <= 0 \/ has_context env = false ->
    generateGlassMaps env width height radius bezel shape profile tension warp
    = Some {| surfaceUrl := EmptyUrl |}).
  { intros [Hw|[Hh|Hc]].
    - apply generateGlassMaps_empty_dims. by left.
    - apply generateGlassMaps_empty_dims. by right.
    - by apply generateGlassMaps_no_context. }
  split; [done|]. split; [apply generateGlassMaps_full|].
  intros res Hres. split.
  - intros Hurl.
    destruct (Z.leb_spec width 0) as [Hw|Hw]; [by left|].
    destruct (Z.leb_spec height 0) as [Hh|Hh]; [right; by left|].
    destruct (has_context env) eqn:Hc; [|right; by right].
    destruct (erosion_ends tension) eqn:He.
    + destruct (generateGlassMaps_full env width height radius bezel shape
                  profile tension warp Hw Hh Hc He) as (data & Hgen & _).
      rewrite Hgen in Hres. injection Hres as <-. discriminate Hurl.
    + rewrite (generateGlassMaps_hangs env width height radius bezel shape
                 profile tension warp Hw Hh Hc He) in Hres. discriminate Hres.
  - intros Hd. rewrite (Hempty Hd) in Hres. by injection Hres as <-.
Qed.

Lemma generateGlassMaps_result_witness :
  exists data,
    generateGlassMaps env_ones 2 2 (of_Z 0) (of_Z 1) rect convex (of_Z 2) (of_Z 0)
    = Some {| surfaceUrl := PngDataUrl 2 2 data |} /\
    Z.of_nat (length data) = 2 * 2 * 4.
Proof.
  apply (generateGlassMaps_result env_ones 2 2 (of_Z 0) (of_Z 1) rect convex
           (of_Z 2) (of_Z 0)); [lia | lia | reflexivity | reflexivity].
Defined.

(** C1 as stated fails: with positive dimensions the result is empty when
    the canvas gives no context, and there is no result at all when the
    tension is infinite. *)
Lemma generateGlassMaps_result_counterexample :
  generateGlassMaps env_no_context 1 1 (of_Z 0) (of_Z 1) rect convex (of_Z 2)
    (of_Z 0) = Some {| surfaceUrl := EmptyUrl |} /\
  generateGlassMaps env_ones 1 1 (of_Z 0) (of_Z 1) rect convex infinity
    (of_Z 0) = None.
Proof. split; vm_compute; reflexivity. Qed.

(* ------------------------------------------------------------------ *)
(** * The height field before the erosion (C2, C3) *)

Section Plateau.
Variables (width height : Z) (radius bezel : num).
Variables (shape : GlassShape) (profile : GlassShapeProfile).
Variables (warp : num) (perm : list Z).

Lemma pixel_height_plateau x y :
  ltb (pixel_dist width height radius shape profile warp perm x y)
      (neg bezel) = true ->
  pixel_height width height radius bezel shape profile warp perm x y
  = if isLiquid profile then
      Math_max (of_Z 0) (Math_min (of_Z 1)
        (add (of_Z 1)
             (mul (noise2d perm (mul (of_Z x) (lit 15 1000))
                                (mul (of_Z y) (lit 15 1000)))
                  (lit 3 100))))
    else of_Z 1.
Proof.
  intros Hd. unfold pixel_height, profile_height. rewrite Hd.
  by destruct (isLiquid profile).
Qed.
End Plateau.

(** C2, as amended, in double precision.  Where [dist < -bezel], the height
    stored before the erosion is exactly 1.0 for the flat, concave and
    convex profiles; for the liquid profile it is 1.0 plus the surface
    noise, clamped to [0, 1] and rounded to single precision. *)
Theorem plateau_height (width height : Z) (radius bezel : num)
    (shape : GlassShape) (profile : GlassShapeProfile) (warp : num)
    (perm : list Z) (x y : Z) :
  0 <= x < width -> 0 <= y < height ->
  ltb (pixel_dist width height radius shape profile warp perm x y)
      (neg bezel) = true ->
  read (profiled_heightMap width height radius bezel shape profile warp perm)
       (y * width + x)
  = match profile with
    | liquid =>
        fround (Math_max (of_Z 0) (Math_min (of_Z 1)
          (add (of_Z 1)
               (mul (noise2d perm (mul (of_Z x) (lit 15 1000))
                                  (mul (of_Z y) (lit 15 1000)))
                    (lit 3 100)))))
    | _ => of_Z 1
    end.
Proof.
  intros Hx Hy Hd.
  rewrite profiled_heightMap_read, pixel_height_plateau by done.
  by destruct profile.
Qed.

Lemma plateau_height_witness :
  read (profiled_heightMap 20 20 (of_Z 0) (of_Z 1) rect convex (of_Z 0)
          (make_perm (random env_ones))) (5 * 20 + 10) = of_Z 1.
Proof.
  apply (plateau_height 20 20 (of_Z 0) (of_Z 1) rect convex (of_Z 0)
           (make_perm (random env_ones)) 10 5); [lia | lia | reflexivity].
Defined.

(** C2 as stated fails for the liquid profile: pixel (10, 5) of a 20 by 20
    rectangle with bezel 1 has [dist = -5 < -1], and its stored height is
    below 1.0. *)
Lemma plateau_height_counterexample :
  let perm := make_perm (random env_ones) in
  ltb (pixel_dist 20 20 (of_Z 0) rect liquid (of_Z 0) perm 10 5)
      (neg (of_Z 1)) = true /\
  ltb (read (profiled_heightMap 20 20 (of_Z 0) (of_Z 1) rect liquid (of_Z 0) perm)
            (5 * 20 + 10)) (of_Z 1) = true.
Proof. split; vm_compute; reflexivity. Qed.

Module B64Sign.
Import B64.

Lemma iter_pos_invariant {A} (P : A -> Prop) (f : A -> A) :
  (forall a, P a -> P (f a)) -> forall p a, P a -> P (SpecFloat.iter_pos f p a).
Proof.
  intros Hf. induction p as [p IH|p IH|]; intros a Ha; cbn; auto.
Qed.

Lemma shr_1_nonneg mrs : 0 <= shr_m mrs -> 0 <= shr_m (shr_1 mrs).
Proof. destruct mrs as [[|[p|p|]|p] r s]; cbn; lia. Qed.

Lemma shr_fexp_nonneg m e l :
  0 <= m -> 0 <= shr_m (shr_fexp prec emax m e l).1.
Proof.
  intros Hm. unfold shr_fexp, shr.
  assert (H0 : 0 <= shr_m (shr_record_of_loc m l)) by (by destruct l as [|[]]).
  destruct (fexp _ _ _ - e) as [|p|p]; cbn [fst]; try done.
  by apply iter_pos_invariant; [apply shr_1_nonneg|].
Qed.

Lemma round_nearest_even_nonneg m l : 0 <= m -> 0 <= round_nearest_even m l.
Proof. intros Hm. destruct l as [|[]]; cbn; try destruct (Z.even m); lia. Qed.

(** Rounding keeps the sign it is given. *)
Lemma binary_round_aux_signed s m e l :
  0 <= m -> signed s (binary_round_aux prec emax s m e l).
Proof.
  intros Hm. unfold binary_round_aux.
  pose proof (shr_fexp_nonneg m e l Hm) as H1.
  destruct (shr_fexp prec emax m e l) as [mrs' e'] eqn:E1. cbn [fst] in H1.
  pose proof (shr_fexp_nonneg
                (round_nearest_even (shr_m mrs') (loc_of_shr_record mrs')) e'
                loc_Exact (round_nearest_even_nonneg _ _ H1)) as H2.
  destruct (shr_fexp prec emax _ e' loc_Exact) as [mrs'' e''] eqn:E2.
  cbn [fst] in H2.
  destruct (shr_m mrs'') as [|p|p]; [done| |lia].
  by destruct (e'' <=? emax - prec).
Qed.

Lemma SFdiv_core_binary_nonneg m1 e1 m2 e2 :
  0 <= (SFdiv_core_binary prec emax (Zpos m1) e1 (Zpos m2) e2).1.1.
Proof.
  unfold SFdiv_core_binary.
  set (s := _ - _ - Z.min _ _).
  set (m' := match s with Z0 => _ | Zpos _ => _ | Zneg _ => _ end).
  assert (Hm' : 0 <= m').
  { subst m'. destruct s; [lia | by apply Z.shiftl_nonneg | lia]. }
  pose proof (Z.div_pos m' (Zpos m2) Hm' ltac:(lia)) as Hq.
  unfold Z.div in Hq. by destruct (Z.div_eucl m' (Zpos m2)).
Qed.

(** A quotient has the product of the signs, unless it is NaN, which
    only the quotients of two zeros or of two infinities are. *)
Lemma fdiv_finite_signed sx mx ex y sy :
  signed sy y -> y <> S754_zero sy ->
  signed (xorb sx sy) (fdiv (S754_finite sx mx ex) y).
Proof.
  intros Hy Hnz. destruct y as [s|s| |s my ey]; cbn in Hy; subst; try done.
  unfold fdiv, SFdiv.
  pose proof (SFdiv_core_binary_nonneg mx ex my ey) as Hq.
  destruct (SFdiv_core_binary _ _ _ _ _ _) as [[mz ez] lz]. cbn in Hq.
  by apply binary_round_aux_signed.
Qed.

(** What the numbers above zero are. *)
Lemma ltb_zero_signed (x : float) :
  SFltb (of_Z 0) x = true -> signed false x /\ x <> S754_zero false.
Proof. by destruct x as [[]|[]| |[] m e]. Qed.

Lemma ltb_one_signed (x : float) :
  SFltb (of_Z 1) x = true -> signed false x /\ x <> S754_zero false.
Proof. by destruct x as [[]|[]| |[] m e]. Qed.

(** A number above zero is not below a number below zero. *)
Lemma positive_not_below_negative (d b : float) :
  signed false d -> d <> S754_zero false ->
  SFltb (of_Z 0) b = true -> SFltb d (SFopp b) = false.
Proof.
  intros Hd Hnz Hb. apply ltb_zero_signed in Hb as [Hb Hbz].
  destruct d as [[]|[]| |[] md ed]; try done;
    destruct b as [[]|[]| |[] mb eb]; done.
Qed.

(** [t = Math.max(0, Math.min(1, -dist / bezel))] is 0 for a distance
    above zero that is not above one. *)
Lemma slope_outside (d b : float) :
  SFltb (of_Z 0) d = true -> SFltb (of_Z 1) d = false ->
  SFltb (of_Z 0) b = true ->
  fmax (of_Z 0) (fmin (of_Z 1) (fdiv (SFopp d) b)) = of_Z 0.
Proof.
  intros Hd Hd1 Hb. apply ltb_zero_signed in Hb as [Hb Hbz].
  destruct d as [[]|[]| |[] md ed]; try done. cbn [SFopp negb].
  pose proof (fdiv_finite_signed true md ed b false Hb Hbz) as Hq.
  cbn [xorb] in Hq.
  by destruct (fdiv (S754_finite true md ed) b) as [[]|[]| |[] mq eq].
Qed.
End B64Sign.

Section Outside.
Variables (width height : Z) (radius bezel : num).
Variables (shape : GlassShape) (profile : GlassShapeProfile).
Variables (warp : num) (perm : list Z).

Lemma profile_height_outside dist :
  ltb (of_Z 0) bezel = true -> ltb (of_Z 1) dist = true ->
  profile_height bezel profile dist = of_Z 0.
Proof.
  intros Hb Hd. unfold profile_height.
  destruct (B64Sign.ltb_one_signed dist Hd) as [Hs Hz].
  change (ltb dist (neg bezel)) with (SFltb dist (SFopp bezel)).
  rewrite (B64Sign.positive_not_below_negative dist bezel Hs Hz Hb).
  by rewrite Hd.
Qed.

Lemma profile_height_ring dist :
  ltb (of_Z 0) bezel = true ->
  ltb (of_Z 0) dist = true -> ltb (of_Z 1) dist = false ->
  profile_height bezel profile dist
  = match profile with concave => of_Z 1 | _ => of_Z 0 end.
Proof.
  intros Hb Hd Hd1. unfold profile_height.
  destruct (B64Sign.ltb_zero_signed dist Hd) as [Hs Hz].
  change (ltb dist (neg bezel)) with (SFltb dist (SFopp bezel)).
  rewrite (B64Sign.positive_not_below_negative dist bezel Hs Hz Hb).
  rewrite Hd1.
  change (Math_max (of_Z 0) (Math_min (of_Z 1) (div (neg dist) bezel)))
    with (B64.fmax (B64.of_Z 0) (B64.fmin (B64.of_Z 1) (B64.fdiv (SFopp dist) bezel))).
  rewrite (B64Sign.slope_outside dist bezel Hd Hd1 Hb).
  by destruct profile.
Qed.
End Outside.

(** C3, as amended, in double precision.  With a positive bezel, a pixel
    with [dist > 1.0] has height 0.0 for every profile; a pixel with
    [0 < dist <= 1.0] has [t = 0] and so height 0.0 for the flat, convex and
    liquid profiles, and height 1.0 for the concave profile. *)
Theorem outside_height (width height : Z) (radius bezel : num)
    (shape : GlassShape) (profile : GlassShapeProfile) (warp : num)
    (perm : list Z) (x y : Z) :
  0 <= x < width -> 0 <= y < height ->
  ltb (of_Z 0) bezel = true ->
  (ltb (of_Z 1) (pixel_dist width height radius shape profile warp perm x y)
     = true ->
   read (profiled_heightMap width height radius bezel shape profile warp perm)
        (y * width + x) = of_Z 0) /\
  (ltb (of_Z 0) (pixel_dist width height radius shape profile warp perm x y)
     = true ->
   ltb (of_Z 1) (pixel_dist width height radius shape profile warp perm x y)
     = false ->
   read (profiled_heightMap width height radius bezel shape profile warp perm)
        (y * width + x)
   = match profile with concave => of_Z 1 | _ => of_Z 0 end).
Proof.
  intros Hx Hy Hb. split.
  - intros Hd. rewrite profiled_heightMap_read by done. unfold pixel_height.
    rewrite (profile_height_outside bezel profile _ Hb Hd).
    by destruct (isLiquid profile).
  - intros Hd Hd1. rewrite profiled_heightMap_read by done. unfold pixel_height.
    rewrite (profile_height_ring bezel profile _ Hb Hd Hd1).
    by destruct profile.
Qed.

Lemma outside_height_witness :
  let perm := make_perm (random env_ones) in
  let dist := pixel_dist 4 4 (of_Z 1) rect concave (of_Z 0) perm 0 0 in
  ltb (of_Z 0) dist = true /\ ltb (of_Z 1) dist = false /\
  read (profiled_heightMap 4 4 (of_Z 1) (of_Z 1) rect concave (of_Z 0) perm)
       (0 * 4 + 0) = of_Z 1.
Proof.
  split; [reflexivity|]. split; [reflexivity|].
  apply (outside_height 4 4 (of_Z 1) (of_Z 1) rect concave (of_Z 0)
           (make_perm (random env_ones)) 0 0);
    [lia | lia | reflexivity | reflexivity | reflexivity].
Defined.

(** C3 as stated fails: pixel (0, 0) of a 4 by 4 rectangle with corner
    radius 1 and bezel 1 has [dist = sqrt 2 - 1], between 0 and 1, and its
    stored height under the convex profile is 0, which is not positive. *)
Lemma outside_height_counterexample :
  let perm := make_perm (random env_ones) in
  let dist := pixel_dist 4 4 (of_Z 1) rect convex (of_Z 0) perm 0 0 in
  ltb (of_Z 0) dist = true /\ leb dist (of_Z 1) = true /\
  ltb (of_Z 0)
      (read (profiled_heightMap 4 4 (of_Z 1) (of_Z 1) rect convex (of_Z 0) perm)
            (0 * 4 + 0)) = false.
Proof. split_and!; vm_compute; reflexivity. Qed.

(* ------------------------------------------------------------------ *)
(** * The alpha channel (C4) *)

(** C4, in double precision.  A call with positive dimensions, a context
    and an erosion that ends returns an image in which every pixel has the
    alpha byte 255 when its height after the erosion exceeds 0.01 and the
    alpha byte 0 otherwise. *)
Theorem alpha_binary (env : Env) (width height : Z) (radius bezel : num)
    (shape : GlassShape) (profile : GlassShapeProfile) (tension warp : num) :
  0 < width -> 0 < height -> has_context env = true ->
  erosion_ends tension = true ->
  exists data,
    generateGlassMaps env width height radius bezel shape profile tension warp
    = Some {| surfaceUrl := PngDataUrl width height data |} /\
    forall x y, 0 <= x < width -> 0 <= y < height ->
      exists hVal alpha,
        final_height width height radius bezel shape profile warp
          (make_perm (random env)) tension x y = Some hVal /\
        channel width data x y 3 = Some alpha /\
        alpha = (if ltb (lit 1 100) hVal then 255 else 0) /\
        (alpha = 0 \/ alpha = 255).
Proof.
  intros Hw Hh Hc He.
  apply (eroded_heightMap_is_Some width height radius bezel shape profile warp
           (make_perm (random env))) in He as [hm Hhm].
  eexists. split.
  - by apply (generateGlassMaps_returns _ _ _ _ _ _ _ (make_perm (random env))).
  - intros x y Hx Hy. unfold final_height. rewrite Hhm. cbn [fmap option_fmap option_map].
    eexists _, _. split; [done|].
    rewrite (pack_pass_channel width height hm _ x y 3)
      by (done || lia || apply createImageData_length).
    rewrite pixel_bytes_alpha. split; [done|].
    destruct (ltb (lit 1 100) (read hm (y * width + x))); split; try done;
      [by right | by left].
Qed.

Lemma alpha_binary_witness :
  exists data,
    generateGlassMaps env_ones 2 2 (of_Z 0) (of_Z 1) rect convex (of_Z 2) (of_Z 0)
    = Some {| surfaceUrl := PngDataUrl 2 2 data |} /\
    forall x y, 0 <= x < 2 -> 0 <= y < 2 ->
      exists hVal alpha,
        final_height 2 2 (of_Z 0) (of_Z 1) rect convex (of_Z 0)
          (make_perm (random env_ones)) (of_Z 2) x y = Some hVal /\
        channel 2 data x y 3 = Some alpha /\
        alpha = (if ltb (lit 1 100) hVal then 255 else 0) /\
        (alpha = 0 \/ alpha = 255).
Proof.
  apply (alpha_binary env_ones 2 2 (of_Z 0) (of_Z 1) rect convex (of_Z 2) (of_Z 0));
    [lia | lia | reflexivity | reflexivity].
Defined.

(* ------------------------------------------------------------------ *)
(** * A skipped erosion (C6) *)

Module B64Facts.
Import B64.

Lemma leb_zero_not_gt (t : float) :
  SFleb t (of_Z 0) = true -> SFltb (of_Z 0) t = false.
Proof. by destruct t as [[]|[]| |[] m e]. Qed.
End B64Facts.

(** C6, in double precision.  When [tension <= 0] the erosion stage changes
    neither array, and the height field after it is the one the profile
    loop produced. *)
Theorem erosion_skipped (width height : Z) (radius bezel : num)
    (shape : GlassShape) (profile : GlassShapeProfile) (warp : num)
    (perm : list Z) (tension : num) (heightMap tempMap : list num) :
  leb tension (of_Z 0) = true ->
  erosion width height tension heightMap tempMap = Some (heightMap, tempMap) /\
  eroded_heightMap width height radius bezel shape profile warp perm tension
  = Some (profiled_heightMap width height radius bezel shape profile warp perm).
Proof.
  intros Ht. apply B64Facts.leb_zero_not_gt in Ht.
  split; [|by apply eroded_heightMap_skipped].
  unfold erosion.
  change (ltb (of_Z 0) tension) with (SFltb (B64.of_Z 0) tension).
  by rewrite Ht.
Qed.

Lemma erosion_skipped_witness :
  eroded_heightMap 2 2 (of_Z 0) (of_Z 1) rect convex (of_Z 0)
    (make_perm (random env_ones)) (of_Z 0)
  = Some (profiled_heightMap 2 2 (of_Z 0) (of_Z 1) rect convex (of_Z 0)
            (make_perm (random env_ones))).
Proof.
  apply (erosion_skipped 2 2 (of_Z 0) (of_Z 1) rect convex (of_Z 0)
           (make_perm (random env_ones)) (of_Z 0) [] []).
  reflexivity.
Defined.

(* ------------------------------------------------------------------ *)
(** * The end-to-end example (C8) *)

(** C8, in double precision.  The call with width 100, height 100, corner
    radius 20, bezel 10, a rectangle, the convex profile, tension 2 and
    warp 0 returns, whenever the canvas gives a context, an image whose
    pixel (50, 50) has alpha 255 and blue 255 and whose pixel (0, 0) has
    alpha 0. *)
Theorem end_to_end_example (env : Env) :
  has_context env = true ->
  exists data,
    generateGlassMaps env 100 100 (of_Z 20) (of_Z 10) rect convex (of_Z 2)
      (of_Z 0) = Some {| surfaceUrl := PngDataUrl 100 100 data |} /\
    channel 100 data 50 50 3 = Some 255 /\
    channel 100 data 50 50 2 = Some 255 /\
    channel 100 data 0 0 3 = Some 0.
Proof.
  intros Hc.
  destruct (eroded_heightMap_blurred 100 100 (of_Z 20) (of_Z 10) rect convex
              (of_Z 0) (make_perm (random env)) (of_Z 2) 2)
    as (hm & Hhm & Hlen & Hread); [reflexivity | reflexivity |].
  eexists. split.
  - by apply (generateGlassMaps_returns _ _ _ _ _ _ _ (make_perm (random env)));
      [lia | lia | | |].
  - split_and!.
    + rewrite (pack_pass_channel 100 100 hm _ 50 50 3)
        by (lia || apply createImageData_length).
      rewrite pixel_bytes_alpha, Hread by lia. vm_compute. reflexivity.
    + rewrite (pack_pass_channel 100 100 hm _ 50 50 2)
        by (lia || apply createImageData_length).
      rewrite pixel_bytes_blue, Hread by lia. vm_compute. reflexivity.
    + rewrite (pack_pass_channel 100 100 hm _ 0 0 3)
        by (lia || apply createImageData_length).
      rewrite pixel_bytes_alpha, Hread by lia. vm_compute. reflexivity.
Qed.

Lemma end_to_end_example_witness :
  exists data,
    generateGlassMaps env_ones 100 100 (of_Z 20) (of_Z 10) rect convex (of_Z 2)
      (of_Z 0) = Some {| surfaceUrl := PngDataUrl 100 100 data |} /\
    channel 100 data 50 50 3 = Some 255 /\
    channel 100 data 50 50 2 = Some 255 /\
    channel 100 data 0 0 3 = Some 0.
Proof. apply (end_to_end_example env_ones). reflexivity. Defined.

(* ------------------------------------------------------------------ *)
(** * Determinism without noise (C10) *)

Section Determinism.
Context `{Number}.
Variables (width height : Z) (radius bezel : num).
Variables (shape : GlassShape) (profile : GlassShapeProfile) (warp : num).

Lemma pixel_height_perm perm1 perm2 x y :
  ltb (of_Z 0) warp = false -> profile <> liquid ->
  pixel_height width height radius bezel shape profile warp perm1 x y
  = pixel_height width height radius bezel shape profile warp perm2 x y.
Proof.
  intros Hw Hp. unfold pixel_height, pixel_dist, warped, isLiquid.
  rewrite Hw. by destruct profile.
Qed.

Lemma profiled_heightMap_perm perm1 perm2 :
  ltb (of_Z 0) warp = false -> profile <> liquid ->
  profiled_heightMap width height radius bezel shape profile warp perm1
  = profiled_heightMap width height radius bezel shape profile warp perm2.
Proof.
  intros Hw Hp. unfold profiled_heightMap, profile_pass.
  apply for_range_ext. intros y s _. apply for_range_ext. intros x hm _.
  by rewrite (pixel_height_perm perm1 perm2).
Qed.

Lemma generateGlassMaps_env env1 env2 tension :
  ltb (of_Z 0) warp = false -> profile <> liquid ->
  has_context env1 = has_context env2 ->
  generateGlassMaps env1 width height radius bezel shape profile tension warp
  = generateGlassMaps env2 width height radius bezel shape profile tension warp.
Proof.
  intros Hw Hp Hc. unfold generateGlassMaps, eroded_heightMap.
  by rewrite Hc, (profiled_heightMap_perm (make_perm (random env1))
                    (make_perm (random env2))).
Qed.
End Determinism.

(** C10, in double precision.  With [warp = 0] and a profile other than
    liquid, the result does not depend on the draws of [Math.random()]: two
    calls with the same parameters, in surroundings that differ in those
    draws only, return the same result, and no pixel height reads the
    permutation table. *)
Theorem deterministic_without_noise (env1 env2 : Env) (width height : Z)
    (radius bezel : num) (shape : GlassShape) (profile : GlassShapeProfile)
    (tension : num) :
  profile <> liquid -> has_context env1 = has_context env2 ->
  generateGlassMaps env1 width height radius bezel shape profile tension (of_Z 0)
  = generateGlassMaps env2 width height radius bezel shape profile tension (of_Z 0)
  /\ forall perm1 perm2 x y,
       pixel_height width height radius bezel shape profile (of_Z 0) perm1 x y
       = pixel_height width height radius bezel shape profile (of_Z 0) perm2 x y.
Proof.
  intros Hp Hc. split.
  - by apply generateGlassMaps_env.
  - intros perm1 perm2 x y. by apply pixel_height_perm.
Qed.

Lemma deterministic_without_noise_witness :
  generateGlassMaps env_ones 3 3 (of_Z 1) (of_Z 1) squircle flat (of_Z 1) (of_Z 0)
  = generateGlassMaps env_other 3 3 (of_Z 1) (of_Z 1) squircle flat (of_Z 1) (of_Z 0).
Proof.
  apply (deterministic_without_noise env_ones env_other 3 3 (of_Z 1) (of_Z 1)
           squircle flat (of_Z 1)); [discriminate | reflexivity].
Defined.

(* ------------------------------------------------------------------ *)
(** * Exact arithmetic: bounds (C5, C7) *)

Module ExactFacts.
#[local] Existing Instance exact | 0.
Local Open Scope R_scope.

Lemma Int_part_IZR (z : Z) : Int_part (IZR z) = z.
Proof.
  unfold Int_part.
  assert (H : (z + 1)%Z = up (IZR z)); [|lia].
  apply tech_up; rewrite plus_IZR; lra.
Qed.

Lemma as_count_IZR (z : Z) : Exact.as_count (IZR z) = Some z.
Proof.
  unfold Exact.as_count, Exact.floorZ. rewrite Int_part_IZR.
  by destruct (Req_dec_T (IZR z) (IZR z)).
Qed.

Lemma Rmax_IZR (a b : Z) : Rmax (IZR a) (IZR b) = IZR (Z.max a b).
Proof.
  unfold Rmax. destruct (Rle_dec (IZR a) (IZR b)) as [Hle|Hgt].
  - apply le_IZR in Hle. f_equal. lia.
  - f_equal. assert (b < a)%Z; [|lia]. apply lt_IZR. lra.
Qed.

(** The kernel is the integer [max 1 (ceil tension)]. *)
Lemma erosion_kernel_count (tension : R) :
  as_count (erosion_kernel tension) = Some (Z.max 1 (Exact.ceilZ tension)).
Proof.
  unfold erosion_kernel. cbn. rewrite Rmax_IZR. apply as_count_IZR.
Qed.

Lemma erosion_ends_always (tension : R) : erosion_ends tension = true.
Proof.
  unfold erosion_ends. rewrite erosion_kernel_count.
  apply orb_true_iff. right. apply bool_decide_eq_true. eauto.
Qed.

Lemma clamp_in01 (h : R) : in01 (Rmax 0 (Rmin 1 h)).
Proof.
  split; [apply Rmax_l|].
  apply Rmax_lub; [lra | apply Rmin_l].
Qed.

Lemma pixel_height_in01 width height radius bezel shape profile warp perm x y :
  in01 (pixel_height width height radius bezel shape profile warp perm x y).
Proof. unfold pixel_height. apply clamp_in01. Qed.

Lemma read_in01 (arr : list R) i : Forall in01 arr -> in01 (read arr i).
Proof.
  intros Harr. unfold read. cbn.
  destruct (i <? 0)%Z; [unfold in01; lra|].
  destruct (arr !! Z.to_nat i) as [v|] eqn:Hv; cbn.
  - exact (Forall_lookup_1 _ _ _ _ Harr Hv).
  - unfold in01; lra.
Qed.

(** The loop over [k] counts its samples in [weight], and its [sum] of
    samples in [0, 1] stays between 0 and [weight]. *)
Lemma blur_sum_weight kernel (sample : Z -> R) :
  (0 <= kernel)%Z ->
  (blur_sum kernel sample).2 = IZR (2 * kernel + 1).
Proof.
  intros Hk. unfold blur_sum, for_range.
  replace (2 * kernel + 1)%Z with (Z.of_nat (Z.to_nat (2 * kernel + 1))) by lia.
  generalize (Z.to_nat (2 * kernel + 1)) as n. intros n.
  induction n as [|n IH].
  - cbn. done.
  - rewrite seqZ_S, foldl_app. cbn [foldl].
    destruct (foldl _ _ _) as [sum weight]. cbn in *. subst weight.
    rewrite Nat2Z.inj_succ, succ_IZR. done.
Qed.

Lemma blur_sum_bounds kernel (sample : Z -> R) :
  (forall k, in01 (sample k)) ->
  0 <= (blur_sum kernel sample).1 <= (blur_sum kernel sample).2.
Proof.
  intros Hs. unfold blur_sum.
  apply (for_range_invariant (fun sw : R * R => 0 <= sw.1 <= sw.2)).
  - cbn. lra.
  - intros k [sum weight] _ Hsw. cbn in *. specialize (Hs k).
    unfold in01 in Hs. lra.
Qed.

Lemma blur_average_in01 kernel (sample : Z -> R) :
  (forall k, in01 (sample k)) -> in01 (blur_average kernel sample).
Proof.
  intros Hs. unfold blur_average.
  pose proof (blur_sum_bounds kernel sample Hs) as Hb.
  destruct (blur_sum _ _) as [sum weight]. cbn in *.
  unfold in01. destruct (Req_dec_T weight 0) as [->|Hne].
  - replace sum with 0 by lra. unfold Rdiv. rewrite Rmult_0_l. lra.
  - assert (0 < weight) by lra. split.
    + unfold Rdiv. apply Rmult_le_pos; [lra|].
      left. apply Rinv_0_lt_compat. lra.
    + apply (Rmult_le_reg_r weight); [lra|].
      unfold Rdiv. rewrite Rmult_assoc, Rinv_l by lra. lra.
Qed.
End ExactFacts.

Section ExactBounds.
#[local] Existing Instance exact | 0.
Import ExactFacts.
Local Open Scope R_scope.

Variables (width height : Z) (radius bezel : R).
Variables (shape : GlassShape) (profile : GlassShapeProfile).
Variables (warp : R) (perm : list Z).

Lemma profiled_heightMap_in01 :
  Forall in01
    (profiled_heightMap width height radius bezel shape profile warp perm).
Proof.
  unfold profiled_heightMap, profile_pass.
  apply (nested_fill_Forall in01 (fun y x => (y * width + x)%Z)).
  - apply Forall_replicate. cbn. unfold in01. lra.
  - intros y x. apply pixel_height_in01.
Qed.

Lemma horizontal_pass_in01 kernel (hm tm : list R) :
  Forall in01 hm -> Forall in01 tm ->
  Forall in01 (horizontal_pass width height kernel hm tm).
Proof.
  intros Hhm Htm. unfold horizontal_pass.
  apply (nested_fill_Forall in01 (fun y x => (y * width + x)%Z)); [done|].
  intros y x. apply blur_average_in01. intros k. by apply read_in01.
Qed.

Lemma vertical_pass_in01 kernel (tm hm : list R) :
  Forall in01 tm -> Forall in01 hm ->
  Forall in01 (vertical_pass width height kernel tm hm).
Proof.
  intros Htm Hhm. unfold vertical_pass.
  apply (nested_fill_Forall in01 (fun x y => (y * width + x)%Z)); [done|].
  intros x y. apply blur_average_in01. intros k. by apply read_in01.
Qed.

Lemma normal_len_ge_1 (hm : list R) x y : 1 <= normal_len width height hm x y.
Proof.
  unfold normal_len. destruct (gradient _ _ _ _ _) as [dx dy]. cbn.
  rewrite <- sqrt_1 at 1. apply sqrt_le_1; nra.
Qed.
End ExactBounds.


(** In double precision the same bounds hold on the images tried: here a
    liquid 8 by 6 rectangle with warp 0.5 and tension 1.5. *)
Example bounds_hold_example :
  bounds_hold_binary64 8 6 (of_Z 2) (of_Z 2) rect liquid (lit 3 2) (lit 1 2)
    (make_perm (random env_other)) = true.
Proof. vm_compute. reflexivity. Qed.



Module ExactPowers.
Import ExactFacts.
Local Open Scope R_scope.

Lemma Rltb_true a b : a < b -> Exact.Rltb a b = true.
Proof. intros H. unfold Exact.Rltb. destruct (Rlt_dec a b); [done | lra]. Qed.

Lemma Rltb_false a b : b <= a -> Exact.Rltb a b = false.
Proof. intros H. unfold Exact.Rltb. destruct (Rlt_dec a b); [lra | done]. Qed.

Lemma rpow_nat (b : R) (n : Z) :
  (0 <= n)%Z -> Exact.rpow b (IZR n) = b ^ Z.to_nat n.
Proof.
  intros Hn. unfold Exact.rpow. rewrite as_count_IZR.
  by destruct (Z.leb_spec 0 n); [|lia].
Qed.

Lemma rpow_quarter (b : R) : Exact.rpow b (1 / 4) = sqrt (sqrt b).
Proof.
  unfold Exact.rpow, Exact.as_count, Exact.floorZ.
  assert (H0 : Int_part (1 / 4) = 0%Z).
  { unfold Int_part. assert (H : 1%Z = up (1 / 4)); [|lia].
    apply tech_up; lra. }
  rewrite H0. destruct (Req_dec_T (1 / 4) 0); [lra|].
  by destruct (Req_dec_T (1 / 4) (1 / 4)).
Qed.

Lemma sqrt_sqrt_pow4 (c : R) : 0 <= c -> sqrt (sqrt (c ^ 4)) = c.
Proof.
  intros Hc. replace (c ^ 4) with ((c * c) * (c * c)) by ring.
  rewrite sqrt_square by nra. by apply sqrt_square.
Qed.

Lemma sqrt_sqrt_gt (c v : R) : 0 <= c -> c ^ 4 < v -> c < sqrt (sqrt v).
Proof.
  intros Hc Hv. rewrite <- (sqrt_sqrt_pow4 c Hc) at 1.
  assert (0 <= c ^ 4) by (apply pow_le; lra).
  apply sqrt_lt_1; [apply sqrt_pos | apply sqrt_pos |].
  apply sqrt_lt_1; lra.
Qed.
End ExactPowers.

Section SquircleAndRect.
#[local] Existing Instance exact | 0.
Import ExactFacts ExactPowers.
Local Open Scope R_scope.

Variables (n : Z) (bezel : R) (profile : GlassShapeProfile) (perm : list Z).
Hypothesis n_pos : (0 < n)%Z.
Hypothesis not_liquid : profile <> liquid.

Local Abbreviation half := (half_side n).

Lemma half_pos : 0 < half.
Proof. unfold half_side. apply IZR_lt in n_pos. lra. Qed.

Lemma offset_bound (x : Z) : (0 <= x < n)%Z -> Rabs (IZR x - half) <= half.
Proof.
  intros [H0 H1]. apply IZR_le in H0. apply IZR_lt in H1.
  unfold half_side in *. apply Rabs_le. lra.
Qed.

(** Without warp, the rectangle with corner radius 0 has the distance
    [max (|x - n/2| - n/2) (|y - n/2| - n/2)] inside the image. *)
Lemma pixel_dist_rect x y :
  (0 <= x < n)%Z -> (0 <= y < n)%Z ->
  pixel_dist n n 0 rect profile 0 perm x y
  = Rmax (Rabs (IZR x - half) - half) (Rabs (IZR y - half) - half).
Proof.
  intros Hx Hy. pose proof half_pos as Hh.
  pose proof (offset_bound x Hx) as Hox. pose proof (offset_bound y Hy) as Hoy.
  unfold pixel_dist, warped, isLiquid, cx, cy, bx, by_, r. exact_ops.
  rewrite (Rltb_false 0 0) by lra.
  replace (profile_eqb profile liquid) with false by (by destruct profile).
  cbn [orb shape_eqb]. fold (half_side n).
  rewrite (Rmin_left (IZR n) (IZR n)) by lra. fold (half_side n).
  rewrite (Rmin_left 0 half) by lra. rewrite !Rminus_0_r.
  set (dx := Rabs (IZR x - half) - half). set (dy := Rabs (IZR y - half) - half).
  assert (Hdx : dx <= 0) by (subst dx; lra).
  assert (Hdy : dy <= 0) by (subst dy; lra).
  rewrite (Rmax_right dx 0), (Rmax_right dy 0) by lra.
  rewrite (rpow_nat 0 2) by lia. change (Z.to_nat 2) with 2%nat.
  replace (0 ^ 2 + 0 ^ 2) with 0 by ring. rewrite sqrt_0.
  rewrite Rmin_left by (apply Rmax_lub; lra). lra.
Qed.

(** Without warp, the squircle has the distance
    [((|u|^4 + |v|^4)^(1/4) - 1) * n/2], with [u] and [v] the offsets from
    the centre in units of [n/2]. *)
Lemma pixel_dist_squircle x y :
  pixel_dist n n 0 squircle profile 0 perm x y
  = (sqrt (sqrt (Rabs ((IZR x - half) / half) ^ 4
                 + Rabs ((IZR y - half) / half) ^ 4)) - 1) * half.
Proof.
  pose proof half_pos as Hh.
  unfold pixel_dist, warped, isLiquid, cx, cy. exact_ops.
  rewrite (Rltb_false 0 0) by lra.
  replace (profile_eqb profile liquid) with false by (by destruct profile).
  cbn [orb shape_eqb]. fold (half_side n).
  rewrite (Rmin_left (IZR n) (IZR n)) by lra. fold (half_side n).
  rewrite !(rpow_nat _ 4) by lia.
  change (lit 1 4) with (1 / 4). rewrite rpow_quarter.
  reflexivity.
Qed.

Lemma squircle_on_midline (a : R) :
  Rabs a <= half ->
  (sqrt (sqrt (Rabs (a / half) ^ 4 + Rabs ((half - half) / half) ^ 4)) - 1) * half
  = Rabs a - half.
Proof.
  intros Ha. pose proof half_pos as Hh.
  replace ((half - half) / half) with 0 by (field; lra).
  rewrite Rabs_R0. replace (0 ^ 4) with 0 by ring. rewrite Rplus_0_r.
  rewrite sqrt_sqrt_pow4 by apply Rabs_pos.
  unfold Rdiv. rewrite Rabs_mult, (Rabs_right (/ half)).
  - field. lra.
  - left. by apply Rinv_0_lt_compat.
Qed.

(** On the two midlines the distances of the two shapes agree. *)
Lemma pixel_dist_midline x y :
  (0 <= x < n)%Z -> (0 <= y < n)%Z -> (2 * x = n \/ 2 * y = n)%Z ->
  pixel_dist n n 0 squircle profile 0 perm x y
  = pixel_dist n n 0 rect profile 0 perm x y.
Proof.
  intros Hx Hy Hmid. pose proof half_pos as Hh.
  rewrite pixel_dist_rect, pixel_dist_squircle by done.
  pose proof (offset_bound x Hx) as Hox. pose proof (offset_bound y Hy) as Hoy.
  destruct Hmid as [Hm|Hm].
  - assert (IZR x = half) as ->.
    { unfold half_side. rewrite <- Hm, mult_IZR. lra. }
    rewrite (Rplus_comm (Rabs ((half - half) / half) ^ 4)).
    rewrite squircle_on_midline by done.
    rewrite Rminus_diag, Rabs_R0. rewrite Rmax_right; [done|].
    pose proof (Rabs_pos (IZR y - half)). lra.
  - assert (IZR y = half) as ->.
    { unfold half_side. rewrite <- Hm, mult_IZR. lra. }
    rewrite squircle_on_midline by done.
    rewrite Rminus_diag, Rabs_R0. rewrite Rmax_left; [done|].
    pose proof (Rabs_pos (IZR x - half)). lra.
Qed.

Lemma pixel_height_midline x y :
  (0 <= x < n)%Z -> (0 <= y < n)%Z -> (2 * x = n \/ 2 * y = n)%Z ->
  pixel_height n n 0 bezel squircle profile 0 perm x y
  = pixel_height n n 0 bezel rect profile 0 perm x y.
Proof.
  intros Hx Hy Hmid. unfold pixel_height.
  by rewrite (pixel_dist_midline x y Hx Hy Hmid).
Qed.
End SquircleAndRect.

Section NearTheCorner.
#[local] Existing Instance exact | 0.
Import ExactFacts ExactPowers.
Local Open Scope R_scope.

Variables (n : Z) (bezel : R) (profile : GlassShapeProfile) (perm : list Z).
Hypothesis n_large : (13 <= n)%Z.
Hypothesis bezel_pos : 0 < bezel.
Hypothesis not_liquid : profile <> liquid.

Local Abbreviation half := (half_side n).

Lemma half_large : 13 / 2 <= half.
Proof. unfold half_side. apply IZR_le in n_large. lra. Qed.

(** Outside the shape the slope parameter [t] is 0. *)
Lemma profile_height_positive_dist dist :
  0 < dist ->
  profile_height bezel profile dist
  = match profile with
    | concave => if Exact.Rltb 1 dist then 0 else 1
    | _ => 0
    end.
Proof.
  intros Hd. unfold profile_height. exact_ops.
  rewrite (Rltb_false dist (- bezel)) by lra.
  destruct (Exact.Rltb 1 dist); [by destruct profile|].
  assert (Ht : - dist / bezel < 0).
  { unfold Rdiv. apply Rmult_neg_pos; [lra|]. by apply Rinv_0_lt_compat. }
  rewrite (Rmin_right 1 (- dist / bezel)) by lra.
  rewrite (Rmax_left 0 (- dist / bezel)) by lra.
  destruct profile; try done.
  - rewrite (rpow_nat _ 3) by lia. change (Z.to_nat 3) with 3%nat. ring.
  - rewrite (rpow_nat _ 2) by lia. change (Z.to_nat 2) with 2%nat. ring.
Qed.

Lemma clamp_zero : Rmax 0 (Rmin 1 0) = 0.
Proof. rewrite Rmin_right by lra. apply Rmax_left. lra. Qed.

Lemma clamp_one : Rmax 0 (Rmin 1 1) = 1.
Proof. rewrite Rmin_left by lra. apply Rmax_right. lra. Qed.

Lemma clamp_positive h : 0 < h -> 0 < Rmax 0 (Rmin 1 h).
Proof.
  intros Hh. apply Rlt_le_trans with (Rmin 1 h); [|apply Rmax_r].
  apply Rmin_glb_lt; lra.
Qed.

(** The squircle at pixel (1, 1): outside, height 0 for flat and convex. *)
Lemma squircle_dist_11 :
  0 < pixel_dist n n 0 squircle profile 0 perm 1 1.
Proof.
  pose proof half_large as Hh.
  rewrite pixel_dist_squircle by (lia || done). fold (half_side n).
  set (a := Rabs ((1 - half) / half)).
  assert (Ha : 11 / 13 <= a).
  { subst a. rewrite Rabs_left.
    - apply (Rmult_le_reg_r half); [lra|]. field_simplify; lra.
    - unfold Rdiv. apply Rmult_neg_pos; [lra|]. apply Rinv_0_lt_compat. lra. }
  assert (H1 : 1 < sqrt (sqrt (a ^ 4 + a ^ 4))).
  { apply sqrt_sqrt_gt; [lra|].
    assert ((11 / 13) ^ 4 <= a ^ 4) by (apply pow_incr; lra). lra. }
  nra.
Qed.

(** The rectangle at pixel (1, 1): distance -1, a positive height for
    flat and convex. *)
Lemma rect_dist_11 : pixel_dist n n 0 rect profile 0 perm 1 1 = -1.
Proof.
  pose proof half_large as Hh.
  rewrite pixel_dist_rect by (lia || done). fold (half_side n).
  rewrite Rabs_left by lra. rewrite Rmax_left by lra. lra.
Qed.

Lemma rect_height_11 :
  profile <> concave ->
  0 < pixel_height n n 0 bezel rect profile 0 perm 1 1.
Proof.
  intros Hp. unfold pixel_height, isLiquid. rewrite rect_dist_11.
  replace (profile_eqb profile liquid) with false by (by destruct profile).
  cbn [andb]. exact_ops. apply clamp_positive.
  unfold profile_height. exact_ops.
  destruct (Exact.Rltb (-1) (- bezel)); [lra|].
  rewrite (Rltb_false 1 (-1)) by lra.
  replace (- -1 / bezel) with (/ bezel) by (field; lra).
  assert (Hi : 0 < / bezel) by (by apply Rinv_0_lt_compat).
  rewrite (Rmax_right 0) by (apply Rmin_glb; lra).
  set (t := Rmin 1 (/ bezel)).
  assert (Ht : 0 < t <= 1) by (subst t; split; [apply Rmin_glb_lt; lra | apply Rmin_l]).
  destruct profile; try done.
  - rewrite (rpow_nat _ 3) by lia. change (Z.to_nat 3) with 3%nat.
    assert (0 <= 1 - t < 1) as [H0 H1] by lra.
    assert ((1 - t) ^ 3 < 1); [|lra].
    replace ((1 - t) ^ 3) with ((1 - t) * ((1 - t) * (1 - t))) by ring. nra.
  - lra.
Qed.

Lemma squircle_height_11 :
  profile <> concave ->
  pixel_height n n 0 bezel squircle profile 0 perm 1 1 = 0.
Proof.
  intros Hp. unfold pixel_height, isLiquid.
  rewrite (profile_height_positive_dist _ squircle_dist_11).
  replace (profile_eqb profile liquid) with false by (by destruct profile).
  cbn [andb]. exact_ops. destruct profile; try done; apply clamp_zero.
Qed.

(** Pixel (0, 0): on the rectangle's boundary, more than a pixel outside
    the squircle. *)
Lemma rect_dist_00 : pixel_dist n n 0 rect profile 0 perm 0 0 = 0.
Proof.
  pose proof half_large as Hh.
  rewrite pixel_dist_rect by (lia || done). fold (half_side n).
  rewrite Rabs_left by lra. rewrite Rmax_left by lra. lra.
Qed.

Lemma squircle_dist_00 : 1 < pixel_dist n n 0 squircle profile 0 perm 0 0.
Proof.
  pose proof half_large as Hh.
  rewrite pixel_dist_squircle by (lia || done). fold (half_side n).
  replace ((0 - half) / half) with (-1) by (field; lra).
  rewrite Rabs_left by lra.
  assert (H1 : 15 / 13 < sqrt (sqrt ((- -1) ^ 4 + (- -1) ^ 4))).
  { apply sqrt_sqrt_gt; lra. }
  nra.
Qed.

Lemma rect_height_00 :
  profile = concave ->
  pixel_height n n 0 bezel rect profile 0 perm 0 0 = 1.
Proof.
  intros Hp. unfold pixel_height, isLiquid. rewrite rect_dist_00.
  rewrite Hp. cbn [profile_eqb andb]. unfold profile_height. exact_ops.
  rewrite (Rltb_false 0 (- bezel)), (Rltb_false 1 0) by lra.
  replace (- 0 / bezel) with 0 by (field; lra). rewrite clamp_zero.
  rewrite (rpow_nat _ 2) by lia. change (Z.to_nat 2) with 2%nat.
  replace (1 - 0 ^ 2) with 1 by ring. apply clamp_one.
Qed.

Lemma squircle_height_00 :
  profile = concave ->
  pixel_height n n 0 bezel squircle profile 0 perm 0 0 = 0.
Proof.
  intros Hp. unfold pixel_height, isLiquid.
  pose proof squircle_dist_00 as Hd.
  rewrite profile_height_positive_dist by lra.
  rewrite (Rltb_true 1 _ Hd), Hp. cbn [profile_eqb andb]. exact_ops.
  apply clamp_zero.
Qed.

(** Some pixel among the four nearest to the corner has different heights
    under the two shapes. *)
Lemma heights_differ_near_corner :
  exists x y : Z,
    (0 <= x <= 1)%Z /\ (0 <= y <= 1)%Z /\
    pixel_height n n 0 bezel squircle profile 0 perm x y
    <> pixel_height n n 0 bezel rect profile 0 perm x y.
Proof.
  assert (profile = concave \/ profile <> concave) as [Hp|Hp]
    by (destruct profile; (by left) || (by right)).
  - exists 0%Z, 0%Z. split; [lia|]. split; [lia|].
    rewrite (squircle_height_00 Hp), (rect_height_00 Hp). lra.
  - exists 1%Z, 1%Z. split; [lia|]. split; [lia|].
    rewrite (squircle_height_11 Hp). pose proof (rect_height_11 Hp). lra.
Qed.
End NearTheCorner.




(* ------------------------------------------------------------------ *)
(** * Parameters the generator does not use *)

Section Unused.
Context `{Number}.
Variables (width height : Z) (bezel : num).
Variables (shape : GlassShape) (profile : GlassShapeProfile).

(** Height fields with the same heights, pixel by pixel. *)
Lemma profiled_heightMap_ext radius1 radius2 warp1 warp2 perm1 perm2 :
  (forall x y, 0 <= x < width -> 0 <= y < height ->
     pixel_height width height radius1 bezel shape profile warp1 perm1 x y
     = pixel_height width height radius2 bezel shape profile warp2 perm2 x y) ->
  profiled_heightMap width height radius1 bezel shape profile warp1 perm1
  = profiled_heightMap width height radius2 bezel shape profile warp2 perm2.
Proof.
  intros Heq. unfold profiled_heightMap, profile_pass.
  apply for_range_ext. intros y s Hy. apply for_range_ext. intros x hm Hx.
  rewrite Heq; [done | lia | lia].
Qed.

Lemma generateGlassMaps_ext env radius1 radius2 warp1 warp2 tension :
  (forall x y, 0 <= x < width -> 0 <= y < height ->
     pixel_height width height radius1 bezel shape profile warp1
       (make_perm (random env)) x y
     = pixel_height width height radius2 bezel shape profile warp2
         (make_perm (random env)) x y) ->
  generateGlassMaps env width height radius1 bezel shape profile tension warp1
  = generateGlassMaps env width height radius2 bezel shape profile tension warp2.
Proof.
  intros Heq. unfold generateGlassMaps, eroded_heightMap.
  by rewrite (profiled_heightMap_ext radius1 radius2 warp1 warp2 _ _ Heq).
Qed.
End Unused.

(** X11.  For every arithmetic: the squircle does not use the corner
    radius.  Two calls that differ in [radius] only return the same
    result. *)
Theorem squircle_ignores_radius `{Number} (env : Env) (width height : Z)
    (radius1 radius2 bezel : num) (profile : GlassShapeProfile)
    (tension warp : num) :
  generateGlassMaps env width height radius1 bezel squircle profile tension warp
  = generateGlassMaps env width height radius2 bezel squircle profile tension
      warp.
Proof. by apply generateGlassMaps_ext. Qed.

(** X12.  For every arithmetic: a warp that is not above zero is not used,
    unless the profile is liquid.  Two calls whose warps are both not above
    zero (negative, zero or NaN) return the same result. *)
Theorem warp_not_positive_ignored `{Number} (env : Env) (width height : Z)
    (radius bezel : num) (shape : GlassShape) (profile : GlassShapeProfile)
    (tension warp1 warp2 : num) :
  profile <> liquid ->
  ltb (of_Z 0) warp1 = false -> ltb (of_Z 0) warp2 = false ->
  generateGlassMaps env width height radius bezel shape profile tension warp1
  = generateGlassMaps env width height radius bezel shape profile tension warp2.
Proof.
  intros Hp H1 H2. apply generateGlassMaps_ext. intros x y _ _.
  unfold pixel_height, pixel_dist, warped, isLiquid. rewrite H1, H2.
  by destruct profile.
Qed.

Lemma warp_not_positive_ignored_witness :
  generateGlassMaps env_ones 3 2 (of_Z 1) (of_Z 1) rect convex (of_Z 2)
    (of_Z (-1))
  = generateGlassMaps env_ones 3 2 (of_Z 1) (of_Z 1) rect convex (of_Z 2)
      (of_Z 0).
Proof.
  apply (warp_not_positive_ignored env_ones 3 2 (of_Z 1) (of_Z 1) rect convex
           (of_Z 2) (of_Z (-1)) (of_Z 0)); [discriminate | reflexivity..].
Defined.

(* ------------------------------------------------------------------ *)
(** * The corner radius of the rectangle *)

Module B64Order.
Import B64.

(** [a < b] makes [b > a]. *)
Lemma SFcompare_Lt_Gt (a b : float) :
  SFcompare a b = Some Lt -> SFcompare b a = Some Gt.
Proof.
  destruct a as [[]|[]| |[] ma ea], b as [[]|[]| |[] mb eb]; cbn; try done.
  - rewrite (Z.compare_antisym ea eb).
    destruct (ea ?= eb)%Z; cbn; try done.
    rewrite (ZC4 mb ma). by destruct (Pos.compare_cont Eq ma mb).
  - rewrite (Z.compare_antisym ea eb).
    destruct (ea ?= eb)%Z; cbn; try done.
    rewrite (ZC4 mb ma). by destruct (Pos.compare_cont Eq ma mb).
Qed.

(** [Math.min(a, b)] is [b] when [b < a]. *)
Lemma fmin_above (a b : float) : SFltb b a = true -> fmin a b = b.
Proof.
  unfold SFltb, fmin. intros Hlt.
  destruct (SFcompare b a) as [[]|] eqn:Hc; try done.
  by rewrite (SFcompare_Lt_Gt b a Hc).
Qed.
End B64Order.

(** X13.  In double precision: the corner radius is clamped to half the
    smaller side, so every radius above that half gives the same result. *)
Theorem radius_saturates (env : Env) (width height : Z)
    (radius1 radius2 bezel : num) (shape : GlassShape)
    (profile : GlassShapeProfile) (tension warp : num) :
  let half := div (Math_min (of_Z width) (of_Z height)) (of_Z 2) in
  ltb half radius1 = true -> ltb half radius2 = true ->
  generateGlassMaps env width height radius1 bezel shape profile tension warp
  = generateGlassMaps env width height radius2 bezel shape profile tension warp.
Proof.
  intros half H1 H2. apply generateGlassMaps_ext. intros x y _ _.
  assert (Hr : r width height radius1 = r width height radius2).
  { unfold r. fold half.
    change (B64.fmin radius1 half = B64.fmin radius2 half).
    by rewrite !B64Order.fmin_above. }
  unfold pixel_height, pixel_dist, bx, by_. by rewrite Hr.
Qed.

Lemma radius_saturates_witness :
  generateGlassMaps env_ones 4 6 (of_Z 3) (of_Z 1) rect convex (of_Z 2) (of_Z 0)
  = generateGlassMaps env_ones 4 6 (of_Z 250) (of_Z 1) rect convex (of_Z 2)
      (of_Z 0).
Proof.
  apply (radius_saturates env_ones 4 6 (of_Z 3) (of_Z 250) (of_Z 1) rect convex
           (of_Z 2) (of_Z 0)); reflexivity.
Defined.

(* ------------------------------------------------------------------ *)
(** * The permutation table *)

Section Perm.

Lemma make_perm_length `{Number} rnd : length (make_perm rnd) = 512%nat.
Proof. unfold make_perm. by rewrite length_fmap, length_seq. Qed.

Lemma make_perm_bytes (rnd : nat -> num) :
  Forall (fun v => 0 <= v <= 255) (make_perm rnd).
Proof.
  unfold make_perm. apply Forall_fmap, Forall_forall. intros i _.
  change (0 <= B64.to_integer (B64.ffloor (B64.fmul (rnd i) (B64.of_Z 255)))
               mod 256 <= 255).
  pose proof (Z.mod_pos_bound (B64.to_integer
    (B64.ffloor (B64.fmul (rnd i) (B64.of_Z 255)))) 256 ltac:(lia)). lia.
Qed.

Lemma land_255_range a : 0 <= Z.land a 255 <= 255.
Proof.
  assert (Z.land a 255 = a mod 2 ^ 8) as ->
    by (change 255 with (Z.ones 8); apply Z.land_ones; lia).
  pose proof (Z.mod_pos_bound a (2 ^ 8) ltac:(lia)). lia.
Qed.

Lemma perm_at_range perm i :
  Forall (fun v => 0 <= v <= 255) perm -> 0 <= perm_at perm i <= 255.
Proof.
  intros Hall. unfold perm_at. destruct (i <? 0); [lia|].
  destruct (perm !! Z.to_nat i) as [v|] eqn:Hv; cbn; [|lia].
  by eapply Forall_lookup_1 in Hall.
Qed.

Lemma perm_at_app perm junk i :
  0 <= i < Z.of_nat (length perm) -> perm_at (perm ++ junk) i = perm_at perm i.
Proof.
  intros Hi. unfold perm_at. destruct (Z.ltb_spec i 0); [lia|].
  by rewrite lookup_app_l by lia.
Qed.

Lemma noise2d_table `{Number} perm junk x y :
  length perm = 512%nat -> Forall (fun v => 0 <= v <= 255) perm ->
  noise2d (perm ++ junk) x y = noise2d perm x y.
Proof.
  intros Hlen Hall. unfold noise2d.
  pose proof (land_255_range (to_int32 (Math_floor x))) as HX.
  pose proof (land_255_range (to_int32 (Math_floor y))) as HY.
  set (X := Z.land (to_int32 (Math_floor x)) 255) in *.
  set (Y := Z.land (to_int32 (Math_floor y)) 255) in *.
  pose proof (perm_at_range perm X Hall) as HA.
  pose proof (perm_at_range perm (X + 1) Hall) as HB.
  rewrite (perm_at_app perm junk X), (perm_at_app perm junk (X + 1)) by lia.
  by rewrite !(perm_at_app perm junk) by lia.
Qed.
End Perm.

(** X14.  In double precision: the table [perm] has 512 entries, each a
    byte, and [noise2d] reads it only inside these entries: the six
    indices [X], [X+1], [A], [B], [A+1] and [B+1] are below 512, so that
    entries appended to the table change no value of the noise. *)
Theorem perm_reads_in_range (rnd : nat -> num) (junk : list Z) (x y : num) :
  length (make_perm rnd) = 512%nat /\
  Forall (fun v => 0 <= v <= 255) (make_perm rnd) /\
  noise2d (make_perm rnd ++ junk) x y = noise2d (make_perm rnd) x y.
Proof.
  split_and!; [apply make_perm_length | apply make_perm_bytes |].
  apply noise2d_table; [apply make_perm_length | apply make_perm_bytes].
Qed.

(* ------------------------------------------------------------------ *)
(** * Level parts of the surface *)

Module B64Level.
Import B64.

(** A number minus itself is [+0]. *)
Lemma fsub_same (x : float) : is_finite x = true -> fsub x x = S754_zero false.
Proof.
  destruct x as [[]| | |s m e]; try done. intros _.
  unfold fsub, SFsub. by rewrite Z.sub_diag.
Qed.
End B64Level.

Section Level.
Variables (width height : Z).

(** A pixel whose left and right neighbours have the same height, and
    whose upper and lower neighbours have: its normal is vertical, and red
    and green are 127.5 rounded to even, 128. *)
Lemma pixel_bytes_level (hm : list num) x y :
  let a := read hm (y * width + Z.max 0 (x - 1)) in
  let b := read hm (Z.max 0 (y - 1) * width + x) in
  is_finite a = true -> read hm (y * width + Z.min (width - 1) (x + 1)) = a ->
  is_finite b = true -> read hm (Z.min (height - 1) (y + 1) * width + x) = b ->
  pixel_bytes width height hm x y
  = [128; 128;
     to_uint8_clamped (mul (read hm (y * width + x)) (of_Z 255));
     to_uint8_clamped (if ltb (lit 1 100) (read hm (y * width + x))
                       then of_Z 255 else of_Z 0)].
Proof.
  intros a b Ha Hr Hb Hd.
  unfold pixel_bytes, pixel_rgba, normal_len, gradient. rewrite Hr, Hd.
  fold a b.
  change (sub a a) with (B64.fsub a a). change (sub b b) with (B64.fsub b b).
  rewrite !B64Level.fsub_same by done. reflexivity.
Qed.
End Level.

(** X15.  In double precision: where the surface is level, the map is
    neutral.  If, after the erosion, the left and right neighbours of a
    pixel (clamped to the image) have the same height and its upper and
    lower neighbours have the same height, none of them NaN or infinite,
    then the red and green bytes of the pixel are both 128. *)
Theorem level_surface_is_neutral (env : Env) (width height : Z)
    (radius bezel : num) (shape : GlassShape) (profile : GlassShapeProfile)
    (tension warp : num) (heightMap : list num) (x y : Z) :
  0 <= x < width -> 0 <= y < height -> has_context env = true ->
  eroded_heightMap width height radius bezel shape profile warp
    (make_perm (random env)) tension = Some heightMap ->
  let a := read heightMap (y * width + Z.max 0 (x - 1)) in
  let b := read heightMap (Z.max 0 (y - 1) * width + x) in
  is_finite a = true ->
  read heightMap (y * width + Z.min (width - 1) (x + 1)) = a ->
  is_finite b = true ->
  read heightMap (Z.min (height - 1) (y + 1) * width + x) = b ->
  exists data,
    generateGlassMaps env width height radius bezel shape profile tension warp
    = Some {| surfaceUrl := PngDataUrl width height data |} /\
    channel width data x y 0 = Some 128 /\
    channel width data x y 1 = Some 128.
Proof.
  intros Hx Hy Hc Hhm a b Ha Hr Hb Hd. eexists. split.
  - by apply (generateGlassMaps_returns _ _ _ _ _ _ _ (make_perm (random env)));
      [lia | lia | | |].
  - split.
    + rewrite (pack_pass_channel width height heightMap _ x y 0)
        by (apply createImageData_length || lia || done).
      by rewrite (pixel_bytes_level width height heightMap x y Ha Hr Hb Hd).
    + rewrite (pack_pass_channel width height heightMap _ x y 1)
        by (apply createImageData_length || lia || done).
      by rewrite (pixel_bytes_level width height heightMap x y Ha Hr Hb Hd).
Qed.

Lemma level_surface_is_neutral_witness :
  exists data,
    generateGlassMaps env_ones 6 6 (of_Z 0) (of_Z 1) rect convex (of_Z 0)
      (of_Z 0) = Some {| surfaceUrl := PngDataUrl 6 6 data |} /\
    channel 6 data 3 3 0 = Some 128 /\
    channel 6 data 3 3 1 = Some 128.
Proof.
  apply (level_surface_is_neutral env_ones 6 6 (of_Z 0) (of_Z 1) rect convex
           (of_Z 0) (of_Z 0)
           (profiled_heightMap 6 6 (of_Z 0) (of_Z 1) rect convex (of_Z 0)
              (make_perm (random env_ones))) 3 3);
    [lia | lia | reflexivity | reflexivity | vm_compute; reflexivity..].
Defined.

(* ------------------------------------------------------------------ *)
(** * Deep inside and far outside the shape *)

Section Flat.
Variables (width height : Z) (radius bezel : num).
Variables (shape : GlassShape) (profile : GlassShapeProfile).
Variables (warp : num) (perm : list Z).

(** The erosion of radius 2 keeps the heights 0 and 1 where the whole
    window has them: five equal samples sum to five times the sample. *)
Lemma eroded_height_const (c : num) x y :
  c = of_Z 0 \/ c = of_Z 1 -> 0 < width -> 0 < height ->
  (forall x' y', 0 <= x' < width -> 0 <= y' < height -> near 2 x y x' y' ->
     pixel_height width height radius bezel shape profile warp perm x' y' = c) ->
  0 <= x < width -> 0 <= y < height ->
  eroded_height width height radius bezel shape profile warp perm 2 x y = c.
Proof.
  intros Hc Hw Hh Hnear Hx Hy. unfold eroded_height.
  rewrite (blur_average_ext 2 _ (fun _ => c)).
  - destruct Hc as [-> | ->]; vm_compute; reflexivity.
  - intros k Hk. unfold horizontal_height.
    rewrite (blur_average_ext 2 _ (fun _ => fround c)).
    + destruct Hc as [-> | ->]; vm_compute; reflexivity.
    + intros k' Hk'. f_equal. apply Hnear; unfold clamp_index, near; lia.
Qed.

(** The heights after the erosion of tension 2 around a pixel whose
    neighbourhood of radius 3 has the height [c] before it. *)
Lemma eroded_const (c : num) x y :
  c = of_Z 0 \/ c = of_Z 1 ->
  0 <= x < width -> 0 <= y < height ->
  (forall x' y', 0 <= x' < width -> 0 <= y' < height -> near 3 x y x' y' ->
     pixel_height width height radius bezel shape profile warp perm x' y' = c) ->
  exists hm,
    eroded_heightMap width height radius bezel shape profile warp perm (of_Z 2)
    = Some hm /\
    pixel_bytes width height hm x y
    = [128; 128; to_uint8_clamped (mul c (of_Z 255));
       to_uint8_clamped (if ltb (lit 1 100) c then of_Z 255 else of_Z 0)].
Proof.
  intros Hc Hx Hy Hnear.
  destruct (eroded_heightMap_blurred width height radius bezel shape profile
              warp perm (of_Z 2) 2) as (hm & Hhm & _ & Hread);
    [reflexivity | reflexivity |].
  exists hm. split; [done|].
  assert (Hcross : forall px py, 0 <= px < width -> 0 <= py < height ->
            near 1 x y px py -> read hm (py * width + px) = c).
  { intros px py Hpx Hpy [H1 H2]. rewrite Hread by done.
    apply eroded_height_const; [done|lia|lia| |done|done].
    intros x' y' Hx' Hy' [H3 H4]. apply Hnear; [done|done|]. unfold near. lia. }
  assert (Hfin : is_finite c = true) by (by destruct Hc as [-> | ->]).
  rewrite pixel_bytes_level;
    rewrite ?Hcross by (unfold near; lia); try done.
Qed.
End Flat.

(** X16.  In double precision, for the tension 2.0 that [GlassBubble]
    passes and a profile other than liquid: a pixel all of whose
    neighbours within 3 pixels (in the image) lie on the plateau,
    [dist < -bezel], has the bytes (128, 128, 255, 255): no displacement,
    full height, opaque. *)
Theorem interior_pixel_bytes (env : Env) (width height : Z)
    (radius bezel : num) (shape : GlassShape) (profile : GlassShapeProfile)
    (warp : num) (x y : Z) :
  0 <= x < width -> 0 <= y < height -> has_context env = true ->
  profile <> liquid ->
  (forall x' y', 0 <= x' < width -> 0 <= y' < height -> near 3 x y x' y' ->
     ltb (pixel_dist width height radius shape profile warp
            (make_perm (random env)) x' y') (neg bezel) = true) ->
  exists data,
    generateGlassMaps env width height radius bezel shape profile (of_Z 2) warp
    = Some {| surfaceUrl := PngDataUrl width height data |} /\
    channel width data x y 0 = Some 128 /\
    channel width data x y 1 = Some 128 /\
    channel width data x y 2 = Some 255 /\
    channel width data x y 3 = Some 255.
Proof.
  intros Hx Hy Hctx Hp Hnear.
  destruct (eroded_const width height radius bezel shape profile warp
              (make_perm (random env)) (of_Z 1) x y) as (hm & Hhm & Hbytes);
    [by right | done | done | |].
  { intros x' y' Hx' Hy' Hn. rewrite pixel_height_plateau by auto.
    by destruct profile. }
  eexists. split.
  - by apply (generateGlassMaps_returns _ _ _ _ _ _ _ (make_perm (random env)));
      [lia | lia | | |].
  - split_and!;
      [rewrite (pack_pass_channel width height hm _ x y 0)
         by (apply createImageData_length || lia || done)
      |rewrite (pack_pass_channel width height hm _ x y 1)
         by (apply createImageData_length || lia || done)
      |rewrite (pack_pass_channel width height hm _ x y 2)
         by (apply createImageData_length || lia || done)
      |rewrite (pack_pass_channel width height hm _ x y 3)
         by (apply createImageData_length || lia || done)];
      rewrite Hbytes; vm_compute; reflexivity.
Qed.

Lemma interior_pixel_bytes_witness :
  exists data,
    generateGlassMaps env_ones 8 8 (of_Z 0) (lit 1 2) rect convex (of_Z 2)
      (of_Z 0) = Some {| surfaceUrl := PngDataUrl 8 8 data |} /\
    channel 8 data 4 4 0 = Some 128 /\
    channel 8 data 4 4 1 = Some 128 /\
    channel 8 data 4 4 2 = Some 255 /\
    channel 8 data 4 4 3 = Some 255.
Proof.
  apply (interior_pixel_bytes env_ones 8 8 (of_Z 0) (lit 1 2) rect convex
           (of_Z 0) 4 4); [lia | lia | reflexivity | discriminate |].
  intros x' y' Hx' Hy' [H1 H2].
  assert (Hxs : x' ∈ seqZ 1 7) by (apply elem_of_seqZ; lia).
  assert (Hys : y' ∈ seqZ 1 7) by (apply elem_of_seqZ; lia).
  assert (Hall : Forall (fun x' => Forall (fun y' =>
            ltb (pixel_dist 8 8 (of_Z 0) rect convex (of_Z 0)
                   (make_perm (random env_ones)) x' y') (neg (lit 1 2)) = true)
            (seqZ 1 7)) (seqZ 1 7))
    by (change (seqZ 1 7) with [1; 2; 3; 4; 5; 6; 7];
        repeat constructor; vm_compute; reflexivity).
  eapply Forall_forall in Hall; [|exact Hxs].
  eapply Forall_forall in Hall; [|exact Hys]. exact Hall.
Defined.

(** X17.  In double precision, for the tension 2.0 that [GlassBubble]
    passes, a positive bezel and every profile: a pixel all of whose
    neighbours within 3 pixels (in the image) lie outside the outer ring,
    [dist > 1], has the bytes (128, 128, 0, 0): transparent. *)
Theorem exterior_pixel_bytes (env : Env) (width height : Z)
    (radius bezel : num) (shape : GlassShape) (profile : GlassShapeProfile)
    (warp : num) (x y : Z) :
  0 <= x < width -> 0 <= y < height -> has_context env = true ->
  ltb (of_Z 0) bezel = true ->
  (forall x' y', 0 <= x' < width -> 0 <= y' < height -> near 3 x y x' y' ->
     ltb (of_Z 1) (pixel_dist width height radius shape profile warp
            (make_perm (random env)) x' y') = true) ->
  exists data,
    generateGlassMaps env width height radius bezel shape profile (of_Z 2) warp
    = Some {| surfaceUrl := PngDataUrl width height data |} /\
    channel width data x y 0 = Some 128 /\
    channel width data x y 1 = Some 128 /\
    channel width data x y 2 = Some 0 /\
    channel width data x y 3 = Some 0.
Proof.
  intros Hx Hy Hctx Hb Hnear.
  destruct (eroded_const width height radius bezel shape profile warp
              (make_perm (random env)) (of_Z 0) x y) as (hm & Hhm & Hbytes);
    [by left | done | done | |].
  { intros x' y' Hx' Hy' Hn. unfold pixel_height.
    rewrite (profile_height_outside bezel profile _ Hb) by auto.
    by destruct (isLiquid profile). }
  eexists. split.
  - by apply (generateGlassMaps_returns _ _ _ _ _ _ _ (make_perm (random env)));
      [lia | lia | | |].
  - split_and!;
      [rewrite (pack_pass_channel width height hm _ x y 0)
         by (apply createImageData_length || lia || done)
      |rewrite (pack_pass_channel width height hm _ x y 1)
         by (apply createImageData_length || lia || done)
      |rewrite (pack_pass_channel width height hm _ x y 2)
         by (apply createImageData_length || lia || done)
      |rewrite (pack_pass_channel width height hm _ x y 3)
         by (apply createImageData_length || lia || done)];
      rewrite Hbytes; vm_compute; reflexivity.
Qed.

Lemma exterior_pixel_bytes_witness :
  exists data,
    generateGlassMaps env_ones 40 40 (of_Z 20) (of_Z 1) rect convex (of_Z 2)
      (of_Z 0) = Some {| surfaceUrl := PngDataUrl 40 40 data |} /\
    channel 40 data 0 0 0 = Some 128 /\
    channel 40 data 0 0 1 = Some 128 /\
    channel 40 data 0 0 2 = Some 0 /\
    channel 40 data 0 0 3 = Some 0.
Proof.
  apply (exterior_pixel_bytes env_ones 40 40 (of_Z 20) (of_Z 1) rect convex
           (of_Z 0) 0 0); [lia | lia | reflexivity | reflexivity |].
  intros x' y' Hx' Hy' [H1 H2].
  assert (Hxs : x' ∈ seqZ 0 4) by (apply elem_of_seqZ; lia).
  assert (Hys : y' ∈ seqZ 0 4) by (apply elem_of_seqZ; lia).
  assert (Hall : Forall (fun x' => Forall (fun y' =>
            ltb (of_Z 1)
              (pixel_dist 40 40 (of_Z 20) rect convex (of_Z 0)
                 (make_perm (random env_ones)) x' y') = true)
            (seqZ 0 4)) (seqZ 0 4))
    by (change (seqZ 0 4) with [0; 1; 2; 3];
        repeat constructor; vm_compute; reflexivity).
  eapply Forall_forall in Hall; [|exact Hxs].
  eapply Forall_forall in Hall; [|exact Hys]. exact Hall.
Defined.

(* ------------------------------------------------------------------ *)
(** * A bezel of zero *)

Lemma eqb_zero_inv (x : B64.float) :
  SFeqb x (B64.of_Z 0) = true -> exists s, x = S754_zero s.
Proof.
  destruct x as [s|[]| |[] m e]; cbn; intros Hx; try discriminate; eauto.
Qed.

Section ZeroBezel.
Variables (width height : Z) (radius bezel : num).
Variables (shape : GlassShape) (profile : GlassShapeProfile).
Variables (warp : num) (perm : list Z).

(** [-dist / bezel] is [0 / 0] when both are zero, and the NaN goes
    through the profile and the clamp. *)
Lemma pixel_height_zero_bezel x y :
  SFeqb bezel (of_Z 0) = true ->
  SFeqb (pixel_dist width height radius shape profile warp perm x y) (of_Z 0)
    = true ->
  pixel_height width height radius bezel shape profile warp perm x y = NaN.
Proof.
  intros Hb Hd. apply eqb_zero_inv in Hb as [sb Hb], Hd as [sd Hd].
  unfold pixel_height, profile_height. rewrite Hd, Hb.
  destruct sb, sd, profile; vm_compute; reflexivity.
Qed.

(** A sum with a NaN sample is NaN, and so is the average. *)
Lemma blur_average_NaN kernel (sample : Z -> num) j :
  - kernel <= j <= kernel -> sample j = NaN ->
  blur_average kernel sample = NaN.
Proof.
  intros Hj Hs. unfold blur_average.
  assert (Hsum : (blur_sum kernel sample).1 = NaN).
  { unfold blur_sum, for_range.
    assert (Hin : j ∈ seqZ (- kernel) (2 * kernel + 1))
      by (apply elem_of_seqZ; lia).
    generalize (of_Z 0, of_Z 0). revert Hin.
    induction (seqZ (- kernel) (2 * kernel + 1)) as [|i l IH];
      intros Hin acc; [by apply elem_of_nil in Hin|].
    cbn [foldl]. apply elem_of_cons in Hin as [<-|Hin]; [|by apply IH].
    destruct acc as [sum weight]. rewrite Hs.
    assert (Hnan : add sum NaN = NaN) by (by destruct sum as [[]|[]| |[] ? ?]).
    rewrite Hnan. clear.
    generalize (add weight (of_Z 1)) as weight'. intros weight'.
    revert weight'. induction l as [|i l IH]; intros weight'; [done|].
    cbn [foldl]. apply IH. }
  destruct (blur_sum kernel sample) as [sum weight]. cbn in Hsum. by subst.
Qed.

Lemma eroded_height_NaN kernel x y x' y' :
  0 <= x < width -> 0 <= y < height ->
  0 <= x' < width -> 0 <= y' < height -> near kernel x y x' y' ->
  fround (pixel_height width height radius bezel shape profile warp perm x' y')
    = NaN ->
  eroded_height width height radius bezel shape profile warp perm kernel x y
  = NaN.
Proof.
  intros Hx Hy Hx' Hy' [H1 H2] Hnan. unfold eroded_height.
  rewrite (blur_average_NaN kernel _ (y' - y)); [done|lia|].
  unfold horizontal_height.
  rewrite (blur_average_NaN kernel _ (x' - x)); [done|lia|].
  replace (clamp_index width (x + (x' - x))) with x'
    by (unfold clamp_index; lia).
  by replace (clamp_index height (y + (y' - y))) with y'
    by (unfold clamp_index; lia).
Qed.
End ZeroBezel.

(** X18.  In double precision: with a bezel of zero (the least value of
    the slider "Bezel Width"), a pixel whose distance is exactly zero gets
    no height: [-dist / bezel] is NaN, and NaN is what the height field
    holds for it before the erosion. *)
Theorem zero_bezel_gives_NaN (width height : Z) (radius bezel : num)
    (shape : GlassShape) (profile : GlassShapeProfile) (warp : num)
    (perm : list Z) (x y : Z) :
  0 <= x < width -> 0 <= y < height ->
  SFeqb bezel (of_Z 0) = true ->
  SFeqb (pixel_dist width height radius shape profile warp perm x y) (of_Z 0)
    = true ->
  read (profiled_heightMap width height radius bezel shape profile warp perm)
       (y * width + x) = NaN.
Proof.
  intros Hx Hy Hb Hd.
  by rewrite profiled_heightMap_read, pixel_height_zero_bezel.
Qed.

Lemma zero_bezel_gives_NaN_witness :
  read (profiled_heightMap 4 4 (of_Z 1) (of_Z 0) rect convex (of_Z 0)
          (make_perm (random env_ones))) (2 * 4 + 0) = NaN.
Proof.
  apply (zero_bezel_gives_NaN 4 4 (of_Z 1) (of_Z 0) rect convex (of_Z 0)
           (make_perm (random env_ones)) 0 2);
    [lia | lia | reflexivity | vm_compute; reflexivity].
Defined.

(** X19.  In double precision: a NaN in the height field spreads and is
    drawn transparent.  When the erosion runs with kernel [k], a pixel
    within [k] pixels, in both directions, of a pixel whose height before
    the erosion is NaN has the height NaN after it, and its blue and alpha
    bytes are 0. *)
Theorem NaN_spreads_by_erosion (env : Env) (width height : Z)
    (radius bezel : num) (shape : GlassShape) (profile : GlassShapeProfile)
    (tension warp : num) (kernel x y x' y' : Z) :
  0 <= x < width -> 0 <= y < height -> has_context env = true ->
  ltb (of_Z 0) tension = true ->
  as_count (erosion_kernel tension) = Some kernel ->
  0 <= x' < width -> 0 <= y' < height -> near kernel x y x' y' ->
  read (profiled_heightMap width height radius bezel shape profile warp
          (make_perm (random env))) (y' * width + x') = NaN ->
  final_height width height radius bezel shape profile warp
    (make_perm (random env)) tension x y = Some NaN /\
  exists data,
    generateGlassMaps env width height radius bezel shape profile tension warp
    = Some {| surfaceUrl := PngDataUrl width height data |} /\
    channel width data x y 2 = Some 0 /\
    channel width data x y 3 = Some 0.
Proof.
  intros Hx Hy Hctx Ht Hk Hx' Hy' Hnear Hnan.
  rewrite profiled_heightMap_read in Hnan by done.
  destruct (eroded_heightMap_blurred width height radius bezel shape profile
              warp (make_perm (random env)) tension kernel Ht Hk)
    as (hm & Hhm & _ & Hread).
  assert (Hh : read hm (y * width + x) = NaN).
  { rewrite Hread by done.
    by apply (eroded_height_NaN _ _ _ _ _ _ _ _ _ _ _ x' y'). }
  split.
  - unfold final_height. rewrite Hhm. cbn. by rewrite Hh.
  - eexists. split.
    + by apply (generateGlassMaps_returns _ _ _ _ _ _ _ (make_perm (random env)));
        [lia | lia | | |].
    + split.
      * rewrite (pack_pass_channel width height hm _ x y 2)
          by (apply createImageData_length || lia || done).
        by rewrite pixel_bytes_blue, Hh.
      * rewrite (pack_pass_channel width height hm _ x y 3)
          by (apply createImageData_length || lia || done).
        by rewrite pixel_bytes_alpha, Hh.
Qed.

Lemma NaN_spreads_by_erosion_witness :
  final_height 4 4 (of_Z 1) (of_Z 0) rect convex (of_Z 0)
    (make_perm (random env_ones)) (of_Z 2) 2 3 = Some NaN /\
  exists data,
    generateGlassMaps env_ones 4 4 (of_Z 1) (of_Z 0) rect convex (of_Z 2)
      (of_Z 0) = Some {| surfaceUrl := PngDataUrl 4 4 data |} /\
    channel 4 data 2 3 2 = Some 0 /\
    channel 4 data 2 3 3 = Some 0.
Proof.
  apply (NaN_spreads_by_erosion env_ones 4 4 (of_Z 1) (of_Z 0) rect convex
           (of_Z 2) (of_Z 0) 2 2 3 0 2);
    [lia | lia | reflexivity | reflexivity | reflexivity | lia | lia
    | unfold near; lia | vm_compute; reflexivity].
Defined.

(* ------------------------------------------------------------------ *)
(** * The layout of the image *)

Section Chunks.
Context {A B : Type}.

(** A list of chunks of the same length, chunk by chunk. *)
Lemma bind_chunks_length (f : A -> list B) (k : nat) (l : list A) :
  (forall a, length (f a) = k) -> length (l ≫= f) = (length l * k)%nat.
Proof.
  intros Hk. induction l as [|a l IH]; [done|].
  cbn. rewrite length_app, Hk, IH. lia.
Qed.

Lemma bind_chunks_lookup (f : A -> list B) (k : nat) (l : list A) j c a :
  (forall a, length (f a) = k) -> l !! j = Some a -> (c < k)%nat ->
  (l ≫= f) !! (j * k + c)%nat = f a !! c.
Proof.
  intros Hk. revert j. induction l as [|a' l IH]; intros j Hj Hc; [done|].
  cbn. destruct j as [|j]; cbn in *.
  - injection Hj as ->. by rewrite lookup_app_l by (rewrite Hk; lia).
  - rewrite lookup_app_r by (rewrite Hk; lia). rewrite Hk.
    replace (k + j * k + c - k)%nat with (j * k + c)%nat by lia. by apply IH.
Qed.
End Chunks.

Section Layout.
Context `{Number}.
Variables (width height : Z).

Lemma row_bytes_length heightMap y :
  length (x ← seqZ 0 width; pixel_bytes width height heightMap x y)
  = (Z.to_nat width * 4)%nat.
Proof.
  rewrite (bind_chunks_length _ 4) by (intros x; apply pixel_bytes_length).
  by rewrite length_seqZ.
Qed.

Lemma image_bytes_length heightMap :
  0 < width -> 0 < height ->
  length (image_bytes width height heightMap)
  = Z.to_nat (width * height * 4).
Proof.
  intros Hw Hh. unfold image_bytes.
  rewrite (bind_chunks_length _ (Z.to_nat width * 4))
    by (intros y; apply row_bytes_length).
  rewrite length_seqZ. nia.
Qed.

Lemma image_bytes_channel heightMap x y (c : nat) :
  0 <= x < width -> 0 <= y < height -> (c < 4)%nat ->
  channel width (image_bytes width height heightMap) x y (Z.of_nat c)
  = pixel_bytes width height heightMap x y !! c.
Proof.
  intros Hx Hy Hc. unfold channel, image_bytes.
  replace (Z.to_nat ((y * width + x) * 4 + Z.of_nat c))
    with (Z.to_nat y * (Z.to_nat width * 4) + (Z.to_nat x * 4 + c))%nat by nia.
  rewrite (bind_chunks_lookup _ (Z.to_nat width * 4) _ _ _ y);
    [|intros y'; apply row_bytes_length
     |rewrite lookup_seqZ; split; [f_equal|]; lia
     |nia].
  rewrite (bind_chunks_lookup _ 4 _ _ _ x);
    [done
    |intros x'; apply pixel_bytes_length
    |rewrite lookup_seqZ; split; [f_equal|]; lia
    |done].
Qed.

(** The packing loop writes every byte of the buffer, row after row and
    pixel after pixel. *)
Lemma pack_pass_image heightMap data :
  0 < width -> 0 < height ->
  length data = Z.to_nat (width * height * 4) ->
  pack_pass width height heightMap data = image_bytes width height heightMap.
Proof.
  intros Hw Hh Hlen. apply list_eq. intros i.
  destruct (decide (i < Z.to_nat (width * height * 4))%nat) as [Hi|Hi].
  - set (p := (i / 4)%nat). set (c := (i mod 4)%nat).
    set (x := Z.of_nat (p mod Z.to_nat width)).
    set (y := Z.of_nat (p / Z.to_nat width)).
    assert (Hc : (c < 4)%nat) by (apply Nat.mod_upper_bound; lia).
    assert (Hi4 : i = (p * 4 + c)%nat).
    { subst p c. pose proof (Nat.div_mod_eq i 4). lia. }
    assert (Hp : p = (Z.to_nat y * Z.to_nat width + Z.to_nat x)%nat).
    { subst x y. pose proof (Nat.div_mod_eq p (Z.to_nat width)). lia. }
    assert (Hx : 0 <= x < width).
    { subst x. pose proof (Nat.mod_upper_bound p (Z.to_nat width)). lia. }
    assert (Hy : 0 <= y < height).
    { split; [lia|]. apply Z.nle_gt. intros Hge.
      assert (Z.to_nat height * Z.to_nat width <= p)%nat by nia. nia. }
    assert (Hidx : i = Z.to_nat ((y * width + x) * 4 + Z.of_nat c)) by nia.
    pose proof (pack_pass_channel width height heightMap data x y c
                  Hlen Hx Hy Hc) as H1.
    pose proof (image_bytes_channel heightMap x y c Hx Hy Hc) as H2.
    unfold channel in H1, H2. rewrite <- Hidx in H1, H2. congruence.
  - rewrite !lookup_ge_None_2; [done| |].
    + rewrite image_bytes_length by done. lia.
    + rewrite pack_pass_length. lia.
Qed.
End Layout.

(** X20.  For every arithmetic: the layout of the returned image.  A call
    with positive dimensions and a context whose erosion ends with the
    height field [heightMap] returns the buffer that holds, row after row
    and pixel after pixel within a row, the four bytes of each pixel: no
    byte keeps its initial value and no pixel is written at another
    place. *)
Theorem image_is_row_major `{Number} (env : Env) (width height : Z)
    (radius bezel : num) (shape : GlassShape) (profile : GlassShapeProfile)
    (tension warp : num) (heightMap : list num) :
  0 < width -> 0 < height -> has_context env = true ->
  eroded_heightMap width height radius bezel shape profile warp
    (make_perm (random env)) tension = Some heightMap ->
  generateGlassMaps env width height radius bezel shape profile tension warp
  = Some {| surfaceUrl :=
              PngDataUrl width height (image_bytes width height heightMap) |}.
Proof.
  intros Hw Hh Hc Hhm.
  rewrite (generateGlassMaps_returns width height radius bezel shape profile
             warp (make_perm (random env)) env tension heightMap) by done.
  by rewrite pack_pass_image by (apply createImageData_length || lia).
Qed.

Lemma image_is_row_major_witness :
  generateGlassMaps env_ones 2 2 (of_Z 0) (of_Z 1) rect convex (of_Z 0) (of_Z 0)
  = Some {| surfaceUrl :=
              PngDataUrl 2 2
                (image_bytes 2 2
                   (profiled_heightMap 2 2 (of_Z 0) (of_Z 1) rect convex
                      (of_Z 0) (make_perm (random env_ones)))) |}.
Proof.
  apply (image_is_row_major env_ones 2 2 (of_Z 0) (of_Z 1) rect convex (of_Z 0)
           (of_Z 0)
           (profiled_heightMap 2 2 (of_Z 0) (of_Z 1) rect convex (of_Z 0)
              (make_perm (random env_ones))));
    [lia | lia | reflexivity | reflexivity].
Defined.

(* ------------------------------------------------------------------ *)
(** * Exact arithmetic: the erosion is a box filter *)

Section BoxMean.
#[local] Existing Instance exact | 0.
Import ExactFacts ExactPowers.
Local Open Scope R_scope.

Lemma blur_fold_sum (sample : Z -> R) (l : list Z) (acc : R * R) :
  (foldl (fun s i => let '(sum, weight) := s in (sum + sample i, weight + 1))
         acc l).1
  = acc.1 + foldr Rplus 0 (sample <$> l).
Proof.
  revert acc. induction l as [|i l IH]; intros [sum weight]; cbn.
  - lra.
  - rewrite IH. cbn. lra.
Qed.

Lemma blur_sum_window kernel (sample : Z -> R) :
  (blur_sum kernel sample).1 = window_sum kernel sample.
Proof.
  unfold blur_sum, for_range, window_sum.
  rewrite (blur_fold_sum sample). cbn. lra.
Qed.

Lemma blur_average_window kernel (sample : Z -> R) :
  (0 <= kernel)%Z ->
  blur_average kernel sample = window_sum kernel sample / IZR (2 * kernel + 1).
Proof.
  intros Hk. unfold blur_average.
  pose proof (blur_sum_window kernel sample) as H1.
  pose proof (blur_sum_weight kernel sample Hk) as H2.
  destruct (blur_sum _ _) as [sum weight]. cbn in *. by subst.
Qed.

Lemma window_sum_ext kernel (f g : Z -> R) :
  (forall k, (- kernel <= k <= kernel)%Z -> f k = g k) ->
  window_sum kernel f = window_sum kernel g.
Proof.
  intros Hfg. unfold window_sum. f_equal. apply list_fmap_ext.
  intros i k Hk. apply Hfg. apply list_elem_of_lookup_2, elem_of_seqZ in Hk. lia.
Qed.

Lemma window_sum_div kernel (f : Z -> R) (c : R) :
  window_sum kernel (fun k => f k / c) = window_sum kernel f / c.
Proof.
  unfold window_sum. induction (seqZ (- kernel) (2 * kernel + 1)) as [|k l IH].
  - cbn. unfold Rdiv. by rewrite Rmult_0_l.
  - cbn. rewrite IH. unfold Rdiv. ring.
Qed.

Lemma eroded_height_box_mean width height radius bezel shape profile warp perm
    kernel x y :
  (0 <= kernel)%Z ->
  eroded_height width height radius bezel shape profile warp perm kernel x y
  = box_mean kernel (fun i j =>
      pixel_height width height radius bezel shape profile warp perm
        (clamp_index width (x + i)) (clamp_index height (y + j))).
Proof.
  intros Hk. unfold eroded_height, horizontal_height, box_mean. exact_ops.
  rewrite blur_average_window by done.
  rewrite (window_sum_ext kernel _ (fun j =>
    window_sum kernel (fun i =>
      @pixel_height exact width height radius bezel shape profile warp perm
        (clamp_index width (x + i)) (clamp_index height (y + j)))
    / IZR (2 * kernel + 1)))
    by (intros k _; by apply blur_average_window).
  rewrite window_sum_div. unfold Rdiv. rewrite Rinv_mult. ring.
Qed.
End BoxMean.

(** X21.  Computed without rounding, the erosion is a box filter: when it
    runs ([tension > 0]), its kernel is [k = max 1 (ceil tension)] and the
    height of a pixel after it is the mean of the heights before it over
    the square window of side [2k + 1] around the pixel, with the positions
    outside the image replaced by the nearest ones inside.  The vertical
    pass reads the results of the horizontal pass only. *)
Theorem erosion_is_box_mean (width height : Z) (radius bezel : R)
    (shape : GlassShape) (profile : GlassShapeProfile) (warp : R)
    (perm : list Z) (tension : R) (x y : Z) :
  0 <= x < width -> 0 <= y < height -> (0 < tension)%R ->
  let kernel := Z.max 1 (Exact.ceilZ tension) in
  @final_height exact width height radius bezel shape profile warp perm
    tension x y
  = Some (box_mean kernel (fun i j =>
      @pixel_height exact width height radius bezel shape profile warp perm
        (clamp_index width (x + i)) (clamp_index height (y + j)))).
Proof.
  intros Hx Hy Ht kernel.
  destruct (@eroded_heightMap_blurred exact width height radius bezel shape
              profile warp perm tension kernel) as (hm & Hhm & _ & Hread).
  - by apply ExactPowers.Rltb_true.
  - apply ExactFacts.erosion_kernel_count.
  - unfold final_height. rewrite Hhm. cbn [fmap option_fmap option_map].
    f_equal. rewrite Hread by done. apply eroded_height_box_mean.
    unfold kernel. lia.
Qed.

Lemma erosion_is_box_mean_witness :
  @final_height exact 4 4 1%R 1%R rect convex 0%R [] 2%R 1 1
  = Some (box_mean (Z.max 1 (Exact.ceilZ 2)) (fun i j =>
      @pixel_height exact 4 4 1%R 1%R rect convex 0%R []
        (clamp_index 4 (1 + i)) (clamp_index 4 (1 + j)))).
Proof.
  apply (erosion_is_box_mean 4 4 1%R 1%R rect convex 0%R [] 2%R 1 1);
    [lia | lia | lra].
Defined.

(* ------------------------------------------------------------------ *)
(** * Exact arithmetic: the symmetry of the height field *)

Section Mirror.
#[local] Existing Instance exact | 0.
Import ExactFacts ExactPowers.
Local Open Scope R_scope.

Variables (width height : Z) (radius bezel : R).
Variables (shape : GlassShape) (profile : GlassShapeProfile).
Variables (warp : R) (perm : list Z).
Hypothesis not_liquid : profile <> liquid.
Hypothesis no_warp : warp <= 0.

Lemma mirror_offset (n x : Z) : IZR (n - x) - IZR n / 2 = - (IZR x - IZR n / 2).
Proof. rewrite minus_IZR. lra. Qed.

Lemma pixel_dist_mirror_x x y :
  pixel_dist width height radius shape profile warp perm (width - x) y
  = pixel_dist width height radius shape profile warp perm x y.
Proof.
  unfold pixel_dist, warped, isLiquid, cx, cy. exact_ops.
  rewrite (Rltb_false 0 warp) by lra.
  replace (profile_eqb profile liquid) with false by (by destruct profile).
  cbn [orb]. rewrite mirror_offset.
  replace (- (IZR x - IZR width / 2) / (IZR width / 2))
    with (- ((IZR x - IZR width / 2) / (IZR width / 2)))
    by (unfold Rdiv; ring).
  by rewrite !Rabs_Ropp.
Qed.

Lemma pixel_dist_mirror_y x y :
  pixel_dist width height radius shape profile warp perm x (height - y)
  = pixel_dist width height radius shape profile warp perm x y.
Proof.
  unfold pixel_dist, warped, isLiquid, cx, cy. exact_ops.
  rewrite (Rltb_false 0 warp) by lra.
  replace (profile_eqb profile liquid) with false by (by destruct profile).
  cbn [orb]. rewrite mirror_offset.
  replace (- (IZR y - IZR height / 2) / (IZR height / 2))
    with (- ((IZR y - IZR height / 2) / (IZR height / 2)))
    by (unfold Rdiv; ring).
  by rewrite !Rabs_Ropp.
Qed.

Lemma pixel_height_mirror x y :
  pixel_height width height radius bezel shape profile warp perm (width - x) y
  = pixel_height width height radius bezel shape profile warp perm x y /\
  pixel_height width height radius bezel shape profile warp perm x (height - y)
  = pixel_height width height radius bezel shape profile warp perm x y.
Proof.
  unfold pixel_height, isLiquid.
  replace (profile_eqb profile liquid) with false by (by destruct profile).
  cbn [andb]. by rewrite pixel_dist_mirror_x, pixel_dist_mirror_y.
Qed.
End Mirror.

(** X22.  Computed without rounding, without warp and for a profile other
    than liquid: the height field before the erosion is symmetric about
    the point [(width/2, height/2)] in pixel coordinates.  Column [x] and
    column [width - x] hold the same heights, and so do row [y] and row
    [height - y]; column 0 and row 0 have no mirror image in the
    picture. *)
Theorem height_field_is_mirrored (width height : Z) (radius bezel : R)
    (shape : GlassShape) (profile : GlassShapeProfile) (warp : R)
    (perm : list Z) (x y : Z) :
  profile <> liquid -> (warp <= 0)%R ->
  (1 <= x < width -> 0 <= y < height ->
   @read exact
     (@profiled_heightMap exact width height radius bezel shape profile warp
        perm) (y * width + (width - x))
   = @read exact
       (@profiled_heightMap exact width height radius bezel shape profile warp
          perm) (y * width + x)) /\
  (0 <= x < width -> 1 <= y < height ->
   @read exact
     (@profiled_heightMap exact width height radius bezel shape profile warp
        perm) ((height - y) * width + x)
   = @read exact
       (@profiled_heightMap exact width height radius bezel shape profile warp
          perm) (y * width + x)).
Proof.
  intros Hp Hw.
  destruct (pixel_height_mirror width height radius bezel shape profile warp
              perm Hp Hw x y) as [Hmx Hmy].
  split; intros Hx Hy.
  - rewrite !(@profiled_heightMap_read exact) by lia. rewrite Hmx. reflexivity.
  - rewrite !(@profiled_heightMap_read exact) by lia. rewrite Hmy. reflexivity.
Qed.

Lemma height_field_is_mirrored_witness :
  @read exact (@profiled_heightMap exact 6 4 1%R 1%R rect convex 0%R [])
    (2 * 6 + (6 - 1))
  = @read exact (@profiled_heightMap exact 6 4 1%R 1%R rect convex 0%R [])
      (2 * 6 + 1).
Proof.
  apply (height_field_is_mirrored 6 4 1%R 1%R rect convex 0%R [] 1 2);
    [discriminate | lra | lia | lia].
Defined.

(* ------------------------------------------------------------------ *)
(** * Exact arithmetic: the shape of the profiles *)

Section Profiles.
#[local] Existing Instance exact | 0.
Import ExactFacts ExactPowers.
Local Open Scope R_scope.

Variable bezel : R.
Hypothesis bezel_pos : 0 < bezel.

(** The slope parameter [t = max 0 (min 1 (-dist / bezel))]. *)
Lemma slope_range dist : 0 <= Rmax 0 (Rmin 1 (- dist / bezel)) <= 1.
Proof. apply clamp_in01. Qed.

Lemma slope_decreasing d1 d2 :
  d1 <= d2 ->
  Rmax 0 (Rmin 1 (- d2 / bezel)) <= Rmax 0 (Rmin 1 (- d1 / bezel)).
Proof.
  intros Hd.
  assert (Hq : - d2 / bezel <= - d1 / bezel).
  { unfold Rdiv. apply Rmult_le_compat_r; [|lra].
    left. by apply Rinv_0_lt_compat. }
  apply Rmax_lub; [apply Rmax_l|].
  apply Rle_trans with (Rmin 1 (- d1 / bezel)); [|apply Rmax_r].
  apply Rmin_glb; [apply Rmin_l|].
  apply Rle_trans with (- d2 / bezel); [apply Rmin_r | done].
Qed.

Lemma slope_at_edge : Rmax 0 (Rmin 1 (- - bezel / bezel)) = 1.
Proof.
  replace (- - bezel / bezel) with 1 by (field; lra).
  rewrite Rmin_left by lra. apply Rmax_right. lra.
Qed.

Lemma slope_outside_shape dist :
  0 <= dist -> Rmax 0 (Rmin 1 (- dist / bezel)) = 0.
Proof.
  intros Hd.
  assert (Hq : - dist / bezel <= 0).
  { unfold Rdiv. replace 0 with (0 * / bezel) by ring.
    apply Rmult_le_compat_r; [|lra]. left. by apply Rinv_0_lt_compat. }
  rewrite Rmin_right by lra. apply Rmax_left. lra.
Qed.

(** The height as a function of [t], for each profile. *)
Lemma profile_height_slope profile dist :
  - bezel <= dist -> dist <= 1 ->
  profile_height bezel profile dist
  = let t := Rmax 0 (Rmin 1 (- dist / bezel)) in
    match profile with
    | flat => t
    | concave => 1 - t ^ 2
    | _ => 1 - (1 - t) ^ 3
    end.
Proof.
  intros H1 H2. unfold profile_height. exact_ops.
  rewrite (Rltb_false dist (- bezel)), (Rltb_false 1 dist) by lra.
  rewrite (rpow_nat _ 2), (rpow_nat _ 3) by lia.
  by destruct profile.
Qed.

Lemma profile_height_plateau profile dist :
  dist < - bezel -> profile_height bezel profile dist = 1.
Proof.
  intros Hd. unfold profile_height. exact_ops.
  by rewrite (Rltb_true dist (- bezel)).
Qed.

Lemma profile_height_far profile dist :
  1 < dist -> profile_height bezel profile dist = 0.
Proof.
  intros Hd. unfold profile_height. exact_ops.
  by rewrite (Rltb_false dist (- bezel)), (Rltb_true 1 dist) by lra.
Qed.

Lemma profile_height_in01 profile dist :
  profile <> concave -> 0 <= profile_height bezel profile dist <= 1.
Proof.
  intros Hp.
  destruct (Rlt_dec dist (- bezel)) as [H1|H1];
    [rewrite profile_height_plateau by done; lra|].
  destruct (Rlt_dec 1 dist) as [H2|H2];
    [rewrite profile_height_far by done; lra|].
  rewrite profile_height_slope by lra. cbn zeta.
  pose proof (slope_range dist) as Ht.
  set (t := Rmax 0 (Rmin 1 (- dist / bezel))) in *.
  assert (0 <= (1 - t) ^ 3 <= 1).
  { split; [apply pow_le; lra|]. rewrite <- (pow1 3).
    apply pow_incr. lra. }
  destruct profile; try done; lra.
Qed.

(** The flat, convex and liquid profiles never rise outwards. *)
Lemma profile_height_decreasing profile d1 d2 :
  profile <> concave -> d1 <= d2 ->
  profile_height bezel profile d2 <= profile_height bezel profile d1.
Proof.
  intros Hp Hd.
  pose proof (profile_height_in01 profile d1 Hp) as Hb1.
  pose proof (profile_height_in01 profile d2 Hp) as Hb2.
  destruct (Rlt_dec d1 (- bezel)) as [H1|H1];
    [rewrite (profile_height_plateau profile d1) by done; lra|].
  destruct (Rlt_dec 1 d2) as [H2|H2];
    [rewrite (profile_height_far profile d2) by done; lra|].
  rewrite !profile_height_slope by lra. cbn zeta.
  pose proof (slope_decreasing d1 d2 Hd) as Ht.
  pose proof (slope_range d1) as Ht1. pose proof (slope_range d2) as Ht2.
  set (t1 := Rmax 0 (Rmin 1 (- d1 / bezel))) in *.
  set (t2 := Rmax 0 (Rmin 1 (- d2 / bezel))) in *.
  destruct profile; try done; try lra.
  - assert ((1 - t1) ^ 3 <= (1 - t2) ^ 3) by (apply pow_incr; lra). lra.
  - assert ((1 - t1) ^ 3 <= (1 - t2) ^ 3) by (apply pow_incr; lra). lra.
Qed.
End Profiles.

(** X23.  Computed without rounding, with a positive bezel: under the
    flat, convex and liquid profiles the height given to a distance (before
    the surface noise) lies in [0, 1] and never rises outwards: a greater
    distance never gets a greater height. *)
Theorem profile_never_rises_outwards (bezel : R) (profile : GlassShapeProfile)
    (d1 d2 : R) :
  (0 < bezel)%R -> profile <> concave -> (d1 <= d2)%R ->
  (@profile_height exact bezel profile d2
   <= @profile_height exact bezel profile d1)%R /\
  (0 <= @profile_height exact bezel profile d1 <= 1)%R.
Proof.
  intros Hb Hp Hd. split.
  - by apply profile_height_decreasing.
  - by apply profile_height_in01.
Qed.

Lemma profile_never_rises_outwards_witness :
  (@profile_height exact 2%R convex 0%R
   <= @profile_height exact 2%R convex (-1)%R)%R /\
  (0 <= @profile_height exact 2%R convex (-1)%R <= 1)%R.
Proof.
  apply (profile_never_rises_outwards 2%R convex (-1)%R 0%R);
    [lra | discriminate | lra].
Defined.

(** X24.  Computed without rounding, with a positive bezel: the concave
    profile is a moat.  Its height is 1 on the plateau ([dist < -bezel]),
    drops to 0 at the edge of the plateau ([dist = -bezel]), rises outwards
    across the bezel, and is 1 from the boundary of the shape to the
    distance 1, beyond which it is 0. *)
Theorem concave_profile_is_a_moat (bezel : R) (d1 d2 : R) :
  (0 < bezel)%R ->
  (forall d, (d < - bezel)%R -> @profile_height exact bezel concave d = 1%R) /\
  @profile_height exact bezel concave (- bezel)%R = 0%R /\
  ((- bezel <= d1)%R -> (d1 <= d2)%R -> (d2 <= 1)%R ->
   (@profile_height exact bezel concave d1
    <= @profile_height exact bezel concave d2)%R) /\
  (forall d, (0 <= d <= 1)%R -> @profile_height exact bezel concave d = 1%R) /\
  (forall d, (1 < d)%R -> @profile_height exact bezel concave d = 0%R).
Proof.
  intros Hb. split_and!.
  - intros d Hd. by apply profile_height_plateau.
  - rewrite profile_height_slope by lra. cbn zeta.
    rewrite slope_at_edge by done. lra.
  - intros H1 H12 H2. rewrite !profile_height_slope by lra. cbn zeta.
    pose proof (slope_decreasing bezel Hb d1 d2 H12) as Ht.
    pose proof (slope_range bezel d1) as Ht1.
    pose proof (slope_range bezel d2) as Ht2.
    set (t1 := Rmax 0 (Rmin 1 (- d1 / bezel))) in *.
    set (t2 := Rmax 0 (Rmin 1 (- d2 / bezel))) in *.
    assert (t2 ^ 2 <= t1 ^ 2)%R by (apply pow_incr; lra). lra.
  - intros d [Hd0 Hd1]. rewrite profile_height_slope by lra. cbn zeta.
    rewrite slope_outside_shape by done. lra.
  - intros d Hd. by apply profile_height_far.
Qed.

Lemma concave_profile_is_a_moat_witness :
  @profile_height exact 2%R concave (- 2)%R = 0%R.
Proof.
  pose proof (concave_profile_is_a_moat 2%R 0%R 0%R) as H.
  destruct H as (_ & H & _); [lra | exact H].
Defined.

(* ------------------------------------------------------------------ *)
(** * Exact arithmetic: the noise *)

Section NoiseExact.
#[local] Existing Instance exact | 0.
Import ExactFacts ExactPowers.
Local Open Scope R_scope.

(** [x - Math.floor(x)] lies in [0, 1). *)
Lemma fraction_range (x : R) : 0 <= x - IZR (Exact.floorZ x) < 1.
Proof.
  unfold Exact.floorZ. destruct (base_Int_part x) as [H1 H2]. lra.
Qed.

Lemma fade_range (t : R) : 0 <= t <= 1 -> 0 <= fade t <= 1.
Proof.
  intros [H0 H1]. unfold fade. exact_ops. split.
  - apply Rmult_le_pos; [|nra].
    apply Rmult_le_pos; [|done]. by apply Rmult_le_pos.
  - assert (Heq : 1 - t * t * t * (t * (t * 6 - 15) + 10)
                  = (1 - t) * (1 - t) * (1 - t) * (6 * (t * t) + 3 * t + 1))
      by ring.
    assert (0 <= (1 - t) * (1 - t) * (1 - t) * (6 * (t * t) + 3 * t + 1)).
    { apply Rmult_le_pos; [|nra].
      apply Rmult_le_pos; [|lra]. apply Rmult_le_pos; lra. }
    lra.
Qed.

Lemma fade_0 : fade 0 = 0.
Proof. unfold fade. exact_ops. ring. Qed.

Lemma lerp_0 (a b : R) : lerp 0 a b = a.
Proof. unfold lerp. exact_ops. ring. Qed.

Lemma lerp_bound (t a b m : R) :
  0 <= t <= 1 -> - m <= a <= m -> - m <= b <= m -> - m <= lerp t a b <= m.
Proof.
  intros Ht Ha Hb. unfold lerp. exact_ops.
  replace (a + t * (b - a)) with ((1 - t) * a + t * b) by ring. nra.
Qed.

Lemma grad_bound (hash : Z) (x y : R) :
  -1 <= x <= 1 -> -1 <= y <= 1 -> -2 <= grad hash x y <= 2.
Proof.
  intros Hx Hy. unfold grad. exact_ops. cbn zeta.
  destruct (Z.land hash 15 <? 8)%Z, (Z.land hash 15 <? 4)%Z,
    ((Z.land hash 15 =? 12)%Z || (Z.land hash 15 =? 14)%Z),
    (Z.land (Z.land hash 15) 1 =? 0)%Z, (Z.land (Z.land hash 15) 2 =? 0)%Z;
    lra.
Qed.

Lemma grad_0 (hash : Z) : grad hash 0 0 = 0.
Proof.
  unfold grad. exact_ops. cbn zeta.
  destruct (Z.land hash 15 <? 8)%Z, (Z.land hash 15 <? 4)%Z,
    ((Z.land hash 15 =? 12)%Z || (Z.land hash 15 =? 14)%Z),
    (Z.land (Z.land hash 15) 1 =? 0)%Z, (Z.land (Z.land hash 15) 2 =? 0)%Z;
    lra.
Qed.

Lemma noise2d_bound perm (x y : R) : -2 <= noise2d perm x y <= 2.
Proof.
  unfold noise2d. exact_ops. cbn zeta.
  pose proof (fraction_range x) as Hx. pose proof (fraction_range y) as Hy.
  set (xf := x - IZR (Exact.floorZ x)) in *.
  set (yf := y - IZR (Exact.floorZ y)) in *.
  assert (Hu : 0 <= fade xf <= 1) by (apply fade_range; lra).
  assert (Hv : 0 <= fade yf <= 1) by (apply fade_range; lra).
  repeat apply lerp_bound; try done; apply grad_bound; lra.
Qed.

Lemma noise2d_lattice_0 perm (i j : Z) : noise2d perm (IZR i) (IZR j) = 0.
Proof.
  unfold noise2d. exact_ops. cbn zeta.
  unfold Exact.floorZ. rewrite !Int_part_IZR, !Rminus_diag.
  by rewrite fade_0, !lerp_0, grad_0.
Qed.
End NoiseExact.

(** X25.  Computed without rounding: the noise lies in [-2, 2] for every
    table and every point, and it is 0 at every point with integer
    coordinates. *)
Theorem noise_is_bounded (perm : list Z) (x y : R) (i j : Z) :
  (-2 <= @noise2d exact perm x y <= 2)%R /\
  @noise2d exact perm (IZR i) (IZR j) = 0%R.
Proof. split; [apply noise2d_bound | apply noise2d_lattice_0]. Qed.

(** X26.  Computed without rounding: on the plateau ([dist < -bezel]) the
    liquid profile stores a height between 0.94 and 1: the surface noise,
    at most 2 in size, is scaled by 0.03. *)
Theorem liquid_plateau_height (width height : Z) (radius bezel : R)
    (shape : GlassShape) (warp : R) (perm : list Z) (x y : Z) :
  0 <= x < width -> 0 <= y < height ->
  (@pixel_dist exact width height radius shape liquid warp perm x y
   < - bezel)%R ->
  (94 / 100
   <= @read exact
        (@profiled_heightMap exact width height radius bezel shape liquid warp
           perm) (y * width + x)
   <= 1)%R.
Proof.
  intros Hx Hy Hd. rewrite (@profiled_heightMap_read exact) by done.
  unfold pixel_height, profile_height, isLiquid. exact_ops.
  rewrite (ExactPowers.Rltb_true _ _ Hd). cbn [profile_eqb andb].
  rewrite (ExactPowers.Rltb_true (@lit exact 8 10) 1)
    by (unfold lit; exact_ops; lra).
  pose proof (noise2d_bound perm (IZR x * @lit exact 15 1000)
                (IZR y * @lit exact 15 1000)) as Hn.
  set (n := @noise2d exact perm _ _) in *.
  assert (Hl : @lit exact 3 100 = (3 / 100)%R) by done. rewrite Hl.
  split.
  - apply Rle_trans with (Rmin 1 (1 + n * (3 / 100))); [|apply Rmax_r].
    apply Rmin_glb; lra.
  - apply Rmax_lub; [lra | apply Rmin_l].
Qed.

Lemma liquid_plateau_height_witness :
  (94 / 100
   <= @read exact
        (@profiled_heightMap exact 20 20 0%R 1%R rect liquid 0%R [])
        (10 * 20 + 10)
   <= 1)%R.
Proof.
  apply (liquid_plateau_height 20 20 0%R 1%R rect 0%R [] 10 10); [lia | lia |].
  unfold pixel_dist, warped, isLiquid, cx, cy, bx, by_, r, warpAmp. exact_ops.
  cbn [profile_eqb orb shape_eqb]. rewrite orb_true_r.
  set (n := @noise2d exact [] _ _).
  replace (10 + n * (0 * (if isLiquid liquid then 15 else 8)) - 20 / 2)%R
    with 0%R by (cbn; lra).
  rewrite Rabs_R0, (Rmin_left 20 20) by lra.
  rewrite (Rmin_left 0 (20 / 2)) by lra.
  rewrite (Rmax_right (0 - (20 / 2 - 0)) 0) by lra.
  rewrite (ExactPowers.rpow_nat 0 2) by lia. change (Z.to_nat 2) with 2%nat.
  replace (0 ^ 2 + 0 ^ 2)%R with 0%R by ring. rewrite sqrt_0.
  rewrite Rmax_left by lra. rewrite Rmin_left by lra. lra.
Defined.

(* ------------------------------------------------------------------ *)
(** * The component that uses the map *)

Section BubbleFacts.
Import GlassBubble.

Lemma remove_colons_chars s :
  String.list_ascii_of_string (remove_colons s)
  = List.filter (fun c => negb (Ascii.eqb c ":"%char))
      (String.list_ascii_of_string s).
Proof.
  induction s as [|c s IH]; [done|]. cbn.
  destruct (Ascii.eqb c ":"%char); cbn; by rewrite IH.
Qed.

Lemma remove_colons_none s :
  ~ In ":"%char (String.list_ascii_of_string s) -> remove_colons s = s.
Proof.
  induction s as [|c s IH]; [done|]. cbn. intros Hno.
  destruct (Ascii.eqb_spec c ":"%char) as [->|_]; [tauto|].
  f_equal. apply IH. tauto.
Qed.

Lemma list_ascii_of_string_app s1 s2 :
  String.list_ascii_of_string (s1 +:+ s2)
  = String.list_ascii_of_string s1 ++ String.list_ascii_of_string s2.
Proof.
  induction s1 as [|c s1 IH]; [done|].
  change (String c s1 +:+ s2) with (String c (s1 +:+ s2)).
  cbn [String.list_ascii_of_string app]. by rewrite IH.
Qed.

(** X9.  The filter id is "liquid-glass-" followed by the characters of the
    raw id other than colons, in their order; it contains no colon; and a
    raw id without a colon is kept as it is. *)
Theorem filterId_has_no_colon rawId :
  String.list_ascii_of_string (filterId rawId)
  = String.list_ascii_of_string "liquid-glass-"
    ++ List.filter (fun c => negb (Ascii.eqb c ":"%char))
         (String.list_ascii_of_string rawId) /\
  ~ In ":"%char (String.list_ascii_of_string (filterId rawId)) /\
  (~ In ":"%char (String.list_ascii_of_string rawId) ->
   filterId rawId = "liquid-glass-" +:+ rawId).
Proof.
  unfold filterId. split_and!.
  - by rewrite list_ascii_of_string_app, remove_colons_chars.
  - rewrite list_ascii_of_string_app, remove_colons_chars, in_app_iff.
    intros [Hin|Hin].
    + cbn in Hin. repeat (destruct Hin as [Hin|Hin]; [discriminate|]). done.
    + apply filter_In in Hin as [_ Hc]. by rewrite Ascii.eqb_refl in Hc.
  - intros Hno. by rewrite remove_colons_none.
Qed.

(** X10.  The effect of [GlassBubble] that generates the map, in double
    precision.  It always completes: the generator is called with the
    tension 2.0, whose erosion ends.  With a zero dimension the map is left
    as it is; with a negative dimension or without a 2D context the map
    becomes empty; otherwise it becomes an image of the size of the
    container, with four bytes a pixel.  The map does not depend on the
    draws of [Math.random()], since the call leaves the warp at 0 and the
    profile is convex. *)
Theorem generate_effect_completes (env : Env) (dimensions : Dimensions)
    (radius bezel : num) (shape : GlassShape) (mapUrl : Url) :
  let w := width dimensions in
  let h := height dimensions in
  (w = 0 \/ h = 0 ->
   generate_effect env dimensions radius bezel shape mapUrl = Some mapUrl) /\
  (w <> 0 -> h <> 0 -> w < 0 \/ h < 0 \/ has_context env = false ->
   generate_effect env dimensions radius bezel shape mapUrl = Some EmptyUrl) /\
  (0 < w -> 0 < h -> has_context env = true ->
   exists data,
     generate_effect env dimensions radius bezel shape mapUrl
     = Some (PngDataUrl w h data) /\
     Z.of_nat (length data) = w * h * 4) /\
  (forall env', has_context env' = has_context env ->
     generate_effect env' dimensions radius bezel shape mapUrl
     = generate_effect env dimensions radius bezel shape mapUrl).
Proof.
  intros w h. unfold generate_effect. fold w h. split_and!.
  - intros [Hz|Hz]; rewrite Hz; [done|]. by rewrite orb_true_r.
  - intros Hw Hh Hneg.
    destruct (Z.eqb_spec w 0); [done|]. destruct (Z.eqb_spec h 0); [done|].
    cbn [orb]. destruct Hneg as [Hneg|[Hneg|Hneg]].
    + by rewrite generateGlassMaps_empty_dims by lia.
    + by rewrite generateGlassMaps_empty_dims by lia.
    + by rewrite generateGlassMaps_no_context.
  - intros Hw Hh Hc.
    destruct (Z.eqb_spec w 0); [lia|]. destruct (Z.eqb_spec h 0); [lia|].
    cbn [orb].
    destruct (generateGlassMaps_full env w h radius bezel shape convex
                (of_Z 2) (of_Z 0) Hw Hh Hc) as (data & -> & Hlen);
      [reflexivity|].
    by exists data.
  - intros env' Hc.
    by rewrite (generateGlassMaps_env w h radius bezel shape convex (of_Z 0)
                  env' env (of_Z 2)).
Qed.

Lemma generate_effect_completes_witness :
  exists data,
    generate_effect env_ones {| width := 2; height := 3 |} (of_Z 1) (of_Z 1)
      rect EmptyUrl = Some (PngDataUrl 2 3 data) /\
    Z.of_nat (length data) = 2 * 3 * 4.
Proof.
  apply (generate_effect_completes env_ones {| width := 2; height := 3 |}
           (of_Z 1) (of_Z 1) rect EmptyUrl); [reflexivity..].
Defined.

End BubbleFacts.

(* ------------------------------------------------------------------ *)
(** * The windows and the log of the application *)

Section WindowFacts.
Import MetaGlassApp.

Lemma slice_last_length {A} n (l : list A) :
  length (slice_last n l) = (length l `min` n)%nat.
Proof. unfold slice_last. rewrite length_drop. lia. Qed.

Lemma addLog_length clock message type prev :
  length (addLog clock message type prev) = (S (length prev) `min` 50)%nat.
Proof.
  unfold addLog. rewrite slice_last_length, length_app. cbn. lia.
Qed.

Lemma rebuild_window w :
  {| id := id w; isOpen := isOpen w; zIndex := zIndex w; title := title w |} = w.
Proof. by destruct w. Qed.

Lemma find_window_None id0 ws :
  find_window id0 ws = None <-> forall w, w ∈ ws -> id w <> id0.
Proof.
  unfold find_window. split.
  - intros Hf w Hw Heq. apply list_elem_of_In in Hw.
    pose proof (find_none _ _ Hf w Hw) as Hn. cbn in Hn.
    apply String.eqb_neq in Hn. done.
  - intros Hall. induction ws as [|w ws IH]; [done|]. cbn.
    destruct (String.eqb_spec (id w) id0) as [Heq|Hne].
    + exfalso. apply (Hall w); [left|done].
    + apply IH. intros w' Hw'. apply Hall. by right.
Qed.

Lemma find_window_Some id0 ws t :
  find_window id0 ws = Some t -> t ∈ ws /\ id t = id0.
Proof.
  intros Hf. apply find_some in Hf as [Hin Heq].
  apply list_elem_of_In in Hin. by apply String.eqb_eq in Heq.
Qed.

Lemma find_window_unique id0 ws t :
  NoDup (id <$> ws) -> t ∈ ws -> id t = id0 -> find_window id0 ws = Some t.
Proof.
  intros Hnd Hin Hid. unfold find_window.
  induction ws as [|w ws IH]; [by apply elem_of_nil in Hin|].
  cbn in *. apply NoDup_cons in Hnd as [Hnotin Hnd].
  destruct (String.eqb_spec (id w) id0) as [Heq|Hne].
  - apply elem_of_cons in Hin as [->|Hin]; [done|].
    exfalso. apply Hnotin. rewrite Heq, <- Hid. by apply list_elem_of_fmap_2.
  - apply elem_of_cons in Hin as [->|Hin]; [done|]. by apply IH.
Qed.

(** The window found in a list whose windows were changed without
    changing their ids. *)
Lemma find_window_fmap (f : Window -> Window) id0 ws :
  (forall w, id (f w) = id w) ->
  find_window id0 (f <$> ws) = f <$> find_window id0 ws.
Proof.
  intros Hid. unfold find_window. induction ws as [|w ws IH]; [done|].
  cbn. rewrite Hid. by destruct (String.eqb (id w) id0).
Qed.

Lemma number_le_refl a : le a a.
Proof. destruct a; cbn; [done|lia]. Qed.

Lemma number_le_trans a b c : le a b -> le b c -> le a c.
Proof. destruct a, b, c; cbn; try done; lia. Qed.

Lemma number_le_antisym a b : le a b -> le b a -> a = b.
Proof. destruct a, b; cbn; try done. intros. f_equal. lia. Qed.

Lemma number_le_neq_lt a b : le a b -> a <> b -> lt a b.
Proof.
  destruct a as [|x], b as [|y]; cbn; try done.
  intros Hle Hne. destruct (Z.eq_dec x y); [congruence | lia].
Qed.

Lemma number_lt_le a b : lt a b -> le a b.
Proof. destruct a, b; cbn; try done; lia. Qed.

Lemma number_lt_neq a b : lt a b -> a <> b.
Proof. destruct a, b; cbn; try done. intros Hlt [= ->]. lia. Qed.

Lemma le_max2_l a b : le a (max2 a b).
Proof. destruct a, b; cbn; try done; lia. Qed.

Lemma le_max2_r a b : le b (max2 a b).
Proof. destruct a, b; cbn; try done; lia. Qed.

Lemma Math_max_of_upper zs z : z ∈ zs -> le z (Math_max_of zs).
Proof.
  induction zs as [|a zs IH]; [intros Hz; by apply elem_of_nil in Hz|].
  intros Hz. apply elem_of_cons in Hz as [->|Hz]; cbn.
  - apply le_max2_l.
  - eapply number_le_trans; [by apply IH | apply le_max2_r].
Qed.

Lemma max2_cases a b : max2 a b = a \/ max2 a b = b.
Proof.
  destruct a as [|x], b as [|y]; cbn; auto.
  destruct (Z.max_spec x y) as [[_ ->]|[_ ->]]; auto.
Qed.

Lemma max2_NegInfinity a : max2 a NegInfinity = a.
Proof. by destruct a. Qed.

Lemma Math_max_of_elem zs : zs <> [] -> Math_max_of zs ∈ zs.
Proof.
  induction zs as [|a zs IH]; [done|]. intros _.
  change (Math_max_of (a :: zs)) with (max2 a (Math_max_of zs)).
  destruct zs as [|b zs'].
  - change (Math_max_of []) with NegInfinity. rewrite max2_NegInfinity. left.
  - destruct (max2_cases a (Math_max_of (b :: zs'))) as [->| ->]; [left|].
    right. by apply IH.
Qed.

(** The greatest element of a list is its maximum. *)
Lemma Math_max_of_greatest zs m :
  m ∈ zs -> (forall z, z ∈ zs -> le z m) -> Math_max_of zs = m.
Proof.
  intros Hin Hle. apply number_le_antisym.
  - apply Hle, Math_max_of_elem. intros ->. by apply elem_of_nil in Hin.
  - by apply Math_max_of_upper.
Qed.

Lemma lt_plus_one a b : is_Int b -> le a b -> lt a (plus_one b).
Proof. destruct a, b; cbn; try done; lia. Qed.

Lemma is_Int_plus_one a : is_Int a -> is_Int (plus_one a).
Proof. by destruct a. Qed.

(** A bound of a number other than it is not [-Infinity]. *)
Lemma below_other_is_Int a m : le a m -> number_eqb a m = false -> is_Int m.
Proof. by destruct a, m. Qed.

Lemma number_eqb_eq a b : number_eqb a b = true <-> a = b.
Proof.
  destruct a, b; cbn; try (split; [done|congruence]).
  rewrite Z.eqb_eq. split; congruence.
Qed.

(** The [zIndex] above those of a list of windows with integer indices. *)
Lemma above_all ws w :
  Forall (fun w => is_Int (zIndex w)) ws -> w ∈ ws ->
  is_Int (Math_max_of (zIndex <$> ws)) /\
  lt (zIndex w) (plus_one (Math_max_of (zIndex <$> ws))).
Proof.
  intros Hint Hw.
  assert (Hm : is_Int (Math_max_of (zIndex <$> ws))).
  { assert (Hne : zIndex <$> ws <> []).
    { intros Hnil. apply fmap_nil_inv in Hnil. subst.
      by apply elem_of_nil in Hw. }
    apply Math_max_of_elem in Hne.
    apply list_elem_of_fmap in Hne as (w' & -> & Hw').
    by eapply Forall_forall in Hint. }
  split; [done|]. apply lt_plus_one; [done|].
  apply Math_max_of_upper. by apply list_elem_of_fmap_2.
Qed.

(** Ids are distinct: a window is determined by its id. *)
Lemma same_id ws w1 w2 :
  NoDup (id <$> ws) -> w1 ∈ ws -> w2 ∈ ws -> id w1 = id w2 -> w1 = w2.
Proof.
  intros Hnd H1 H2 Heq.
  apply list_elem_of_lookup in H1 as [i Hi], H2 as [j Hj].
  assert (i = j) as ->; [|congruence].
  eapply NoDup_lookup; [done| |]; rewrite list_lookup_fmap.
  - by rewrite Hi.
  - rewrite Hj. cbn. by rewrite Heq.
Qed.

(** Raising the window of one id above the others keeps the indices
    distinct. *)
Lemma raise_NoDup id0 znew ws :
  NoDup (id <$> ws) -> NoDup (zIndex <$> ws) ->
  (forall w, w ∈ ws -> lt (zIndex w) znew) ->
  NoDup ((fun w => if String.eqb (id w) id0 then znew else zIndex w) <$> ws).
Proof.
  induction ws as [|w ws IH]; intros Hid Hz Hlt; [constructor|].
  cbn in *. apply NoDup_cons in Hid as [Hid1 Hid2], Hz as [Hz1 Hz2].
  assert (Hlt' : forall w', w' ∈ ws -> lt (zIndex w') znew)
    by (intros w' Hw'; apply Hlt; by right).
  apply NoDup_cons. split; [|by apply IH].
  intros Hin. apply list_elem_of_fmap in Hin as (w' & Heq & Hw').
  destruct (String.eqb_spec (id w) id0) as [Hw|Hw];
    destruct (String.eqb_spec (id w') id0) as [Hw0|Hw0].
  - apply Hid1. rewrite Hw, <- Hw0. by apply list_elem_of_fmap_2.
  - apply (number_lt_neq (zIndex w') znew); [by apply Hlt'|done].
  - apply (number_lt_neq (zIndex w) znew); [apply Hlt; left|done].
  - apply Hz1. rewrite Heq. by apply list_elem_of_fmap_2.
Qed.

Lemma id_toggled id0 b m w : id (toggled id0 b m w) = id w.
Proof. unfold toggled. by destruct (String.eqb (id w) id0). Qed.

Lemma title_toggled id0 b m w : title (toggled id0 b m w) = title w.
Proof. unfold toggled. by destruct (String.eqb (id w) id0). Qed.

Lemma toggled_other id0 b m w : id w <> id0 -> toggled id0 b m w = w.
Proof.
  intros Hne. unfold toggled. by destruct (String.eqb_spec (id w) id0).
Qed.

Lemma focused_other id0 m w : id w <> id0 -> focused id0 m w = w.
Proof.
  intros Hne. unfold focused.
  destruct (String.eqb_spec (id w) id0); [done | apply rebuild_window].
Qed.

Lemma fmap_unchanged (f : Window -> Window) (ws : list Window) :
  (forall w, w ∈ ws -> f w = w) -> f <$> ws = ws.
Proof.
  intros Hf. induction ws as [|w ws IH]; [done|]. cbn. f_equal.
  - apply Hf. left.
  - apply IH. intros w' Hw'. apply Hf. by right.
Qed.

Lemma focusWindow_unknown id0 s :
  find_window id0 (windows s) = None -> focusWindow id0 s = s.
Proof.
  intros Hf. unfold focusWindow. rewrite Hf. rewrite find_window_None in Hf.
  destruct s as [ws ls]. cbn [windows logs] in *. f_equal.
  apply (fmap_unchanged (focused id0 _)). intros w Hw.
  apply focused_other. by apply Hf.
Qed.

Lemma windows_toggleWindow clock id0 s :
  windows (toggleWindow clock id0 s)
  = match find_window id0 (windows s) with
    | Some target =>
        toggled id0 (isOpen target) (Math_max_of (zIndex <$> windows s))
          <$> windows s
    | None => windows s
    end.
Proof. unfold toggleWindow. by destruct (find_window id0 (windows s)). Qed.

Lemma logs_toggleWindow clock id0 s :
  logs (toggleWindow clock id0 s)
  = match find_window id0 (windows s) with
    | Some target =>
        if isOpen target then logs s
        else addLog clock ("Process spawned: " +:+ title target) system (logs s)
    | None => logs s
    end.
Proof.
  unfold toggleWindow. destruct (find_window id0 (windows s)) as [t|]; [|done].
  cbn. by destruct (isOpen t).
Qed.

Lemma windows_focusWindow id0 s :
  windows (focusWindow id0 s)
  = if match find_window id0 (windows s) with
       | Some target =>
           number_eqb (zIndex target) (Math_max_of (zIndex <$> windows s))
       | None => false
       end
    then windows s
    else focused id0 (Math_max_of (zIndex <$> windows s)) <$> windows s.
Proof.
  unfold focusWindow.
  by destruct (match _ with Some _ => _ | None => _ end).
Qed.

Lemma logs_focusWindow id0 s : logs (focusWindow id0 s) = logs s.
Proof.
  unfold focusWindow.
  by destruct (match _ with Some _ => _ | None => _ end).
Qed.

Lemma fmap_id_toggled id0 b m (ws : list Window) :
  id <$> (toggled id0 b m <$> ws) = id <$> ws.
Proof.
  rewrite <- list_fmap_compose. apply list_fmap_ext. intros i w _.
  apply id_toggled.
Qed.

Lemma fmap_title_toggled id0 b m (ws : list Window) :
  title <$> (toggled id0 b m <$> ws) = title <$> ws.
Proof.
  rewrite <- list_fmap_compose. apply list_fmap_ext. intros i w _.
  apply title_toggled.
Qed.

Lemma fmap_id_focused id0 m (ws : list Window) :
  id <$> (focused id0 m <$> ws) = id <$> ws.
Proof. by rewrite <- list_fmap_compose. Qed.

Lemma fmap_title_focused id0 m (ws : list Window) :
  title <$> (focused id0 m <$> ws) = title <$> ws.
Proof. by rewrite <- list_fmap_compose. Qed.

Lemma fmap_isOpen_focused id0 m (ws : list Window) :
  isOpen <$> (focused id0 m <$> ws) = isOpen <$> ws.
Proof. by rewrite <- list_fmap_compose. Qed.

(** Neither action adds, removes, renames or reorders a window. *)
Lemma ids_toggleWindow clock id0 s :
  id <$> windows (toggleWindow clock id0 s) = id <$> windows s /\
  title <$> windows (toggleWindow clock id0 s) = title <$> windows s.
Proof.
  rewrite windows_toggleWindow. destruct (find_window id0 (windows s)); [|done].
  by rewrite fmap_id_toggled, fmap_title_toggled.
Qed.

Lemma ids_focusWindow id0 s :
  id <$> windows (focusWindow id0 s) = id <$> windows s /\
  title <$> windows (focusWindow id0 s) = title <$> windows s /\
  isOpen <$> windows (focusWindow id0 s) = isOpen <$> windows s.
Proof.
  rewrite windows_focusWindow.
  destruct (match _ with Some _ => _ | None => _ end); [done|].
  by rewrite fmap_id_focused, fmap_title_focused, fmap_isOpen_focused.
Qed.

Lemma well_formed_raise id0 ws (f : Window -> Window) :
  well_formed ws ->
  (forall w, id (f w) = id w) ->
  (forall w, zIndex (f w)
             = if String.eqb (id w) id0
               then plus_one (Math_max_of (zIndex <$> ws)) else zIndex w) ->
  well_formed (f <$> ws).
Proof.
  intros (Hid & Hz & Hint) Hfid Hfz. split_and!.
  - rewrite <- list_fmap_compose.
    by rewrite (list_fmap_ext (id ∘ f) id ws) by (intros; cbn; apply Hfid).
  - rewrite <- list_fmap_compose.
    rewrite (list_fmap_ext (zIndex ∘ f)
               (fun w => if String.eqb (id w) id0
                         then plus_one (Math_max_of (zIndex <$> ws))
                         else zIndex w) ws) by (intros; cbn; apply Hfz).
    apply raise_NoDup; [done|done|]. intros w Hw. by apply above_all.
  - apply Forall_fmap, Forall_forall. intros w Hw. cbn. rewrite Hfz.
    destruct (String.eqb (id w) id0).
    + apply is_Int_plus_one. by apply (above_all ws w).
    + by eapply Forall_forall in Hint.
Qed.

Lemma well_formed_toggleWindow clock id0 s :
  well_formed (windows s) -> well_formed (windows (toggleWindow clock id0 s)).
Proof.
  intros Hwf. rewrite windows_toggleWindow.
  destruct (find_window id0 (windows s)) as [t|]; [|done].
  destruct (isOpen t) eqn:Ho.
  - (* closing: no index changes *)
    destruct Hwf as (Hid & Hz & Hint). split_and!.
    + by rewrite fmap_id_toggled.
    + rewrite <- list_fmap_compose.
      by rewrite (list_fmap_ext (zIndex ∘ toggled id0 true _) zIndex
                    (windows s))
        by (intros i w _; cbn; unfold toggled;
            by destruct (String.eqb (id w) id0)).
    + apply Forall_fmap, Forall_forall. intros w Hw. cbn.
      eapply Forall_forall in Hint; [|done].
      unfold toggled. by destruct (String.eqb (id w) id0).
  - apply (well_formed_raise id0); [done|apply id_toggled|].
    intros w. unfold toggled. by destruct (String.eqb (id w) id0).
Qed.

Lemma well_formed_focusWindow id0 s :
  well_formed (windows s) -> well_formed (windows (focusWindow id0 s)).
Proof.
  intros Hwf. rewrite windows_focusWindow.
  destruct (match _ with Some _ => _ | None => _ end); [done|].
  by apply (well_formed_raise id0).
Qed.

End WindowFacts.

Section WindowManager.
Import MetaGlassApp.

(** X1.  [addLog] appends the new entry and keeps the last 50 entries: the
    new entry is the last one, before it come the newest 49 of the previous
    entries in their order, and the log never has more than 50 entries. *)
Theorem addLog_keeps_newest clock message type prev :
  let entry := {| logId := Date_now clock;
                  timestamp := toLocaleTimeString clock;
                  message := message;
                  type := type |} in
  addLog clock message type prev = drop (length prev - 49) prev ++ [entry] /\
  length (addLog clock message type prev) = (S (length prev) `min` 50)%nat /\
  (length (addLog clock message type prev) <= 50)%nat.
Proof.
  intros entry. split; [|rewrite addLog_length; lia].
  unfold addLog, slice_last. fold entry. rewrite length_app. cbn [length].
  rewrite drop_app_le by lia. f_equal. f_equal. lia.
Qed.

(** X2.  An id that no window has: [toggleWindow] and [focusWindow] leave
    the windows and the log as they are. *)
Theorem unknown_window_ignored clock id0 s :
  (forall w, w ∈ windows s -> id w <> id0) ->
  toggleWindow clock id0 s = s /\ focusWindow id0 s = s.
Proof.
  intros Hno. apply find_window_None in Hno. split.
  - unfold toggleWindow. by rewrite Hno.
  - by apply focusWindow_unknown.
Qed.

Lemma unknown_window_ignored_witness :
  let clock := {| Date_now := 0; toLocaleTimeString := "12:00:00" |} in
  toggleWindow clock "dock" (initial clock) = initial clock /\
  focusWindow "dock" (initial clock) = initial clock.
Proof.
  apply (unknown_window_ignored _ "dock"). intros w Hw.
  repeat (apply elem_of_cons in Hw as [->|Hw]; [discriminate|]).
  by apply elem_of_nil in Hw.
Defined.



(** X4.  Closing an open window (ids distinct): the window is closed
    afterwards and keeps its [zIndex]; no [zIndex] changes, the other
    windows are unchanged, and nothing is logged. *)
Theorem toggleWindow_closes clock id0 s target :
  NoDup (id <$> windows s) ->
  target ∈ windows s -> id target = id0 -> isOpen target = true ->
  let s' := toggleWindow clock id0 s in
  {| id := id0; isOpen := false; zIndex := zIndex target;
     title := title target |} ∈ windows s' /\
  zIndex <$> windows s' = zIndex <$> windows s /\
  (forall w, w ∈ windows s' -> id w <> id0 -> w ∈ windows s) /\
  (forall w, w ∈ windows s -> id w <> id0 -> w ∈ windows s') /\
  id <$> windows s' = id <$> windows s /\
  logs s' = logs s.
Proof.
  intros Hnd Hin Hid Hopen s'.
  pose proof (find_window_unique id0 _ target Hnd Hin Hid) as Hf.
  assert (Hws : windows s'
                = toggled id0 true (Math_max_of (zIndex <$> windows s))
                    <$> windows s).
  { subst s'. by rewrite windows_toggleWindow, Hf, Hopen. }
  split_and!.
  - rewrite Hws. apply list_elem_of_fmap. exists target. split; [|done].
    unfold toggled. rewrite <- Hid, String.eqb_refl. done.
  - rewrite Hws, <- list_fmap_compose. apply list_fmap_ext. intros i w _.
    cbn. unfold toggled. by destruct (String.eqb (id w) id0).
  - intros w Hw Hne. rewrite Hws in Hw.
    apply list_elem_of_fmap in Hw as (w0 & -> & Hw0).
    rewrite id_toggled in Hne. by rewrite toggled_other.
  - intros w Hw Hne. rewrite Hws. apply list_elem_of_fmap. exists w.
    by rewrite toggled_other.
  - subst s'. apply ids_toggleWindow.
  - subst s'. by rewrite logs_toggleWindow, Hf, Hopen.
Qed.

Lemma toggleWindow_closes_witness :
  let clock := {| Date_now := 7; toLocaleTimeString := "12:00:00" |} in
  let s' := toggleWindow clock "controls" (initial clock) in
  {| id := "controls"; isOpen := false; zIndex := Int 10; title := "Controls" |}
    ∈ windows s' /\
  zIndex <$> windows s' = [Int 10; Int 9; Int 8] /\
  logs s' = logs (initial clock).
Proof.
  intros clock s'.
  pose proof (toggleWindow_closes clock "controls" (initial clock)
    {| id := "controls"; isOpen := true; zIndex := Int 10;
       title := "Controls" |}) as H.
  destruct H as (H1 & H2 & _ & _ & _ & H6).
  - by apply (bool_decide_unpack _).
  - cbn. left.
  - reflexivity.
  - reflexivity.
  - split; [exact H1 | split; [exact H2 | exact H6]].
Defined.

(** X5.  With distinct ids, toggling a window twice gives every window the
    open flag it had. *)
Theorem toggleWindow_twice clock1 clock2 id0 s :
  NoDup (id <$> windows s) ->
  isOpen <$> windows (toggleWindow clock2 id0 (toggleWindow clock1 id0 s))
  = isOpen <$> windows s.
Proof.
  intros Hnd.
  destruct (find_window id0 (windows s)) as [t|] eqn:Hf.
  - pose proof (find_window_Some _ _ _ Hf) as [Ht Hid].
    rewrite (windows_toggleWindow clock2), (windows_toggleWindow clock1), Hf.
    rewrite find_window_fmap by apply id_toggled. rewrite Hf.
    cbn [fmap option_fmap option_map].
    rewrite <- !list_fmap_compose. apply list_fmap_ext. intros i w Hw.
    apply list_elem_of_lookup_2 in Hw. cbn [compose].
    assert (Hb : forall m,
              isOpen (toggled id0 (isOpen t) m t) = negb (isOpen t)).
    { intros m. unfold toggled. by rewrite Hid, String.eqb_refl. }
    rewrite Hb.
    destruct (String.eqb_spec (id w) id0) as [Heq|Hne].
    + assert (w = t) as -> by (apply (same_id (windows s)); congruence).
      unfold toggled at 1. rewrite id_toggled, Hid, String.eqb_refl.
      cbn [isOpen]. apply negb_involutive.
    + by rewrite !toggled_other by (by rewrite ?toggled_other).
  - assert (toggleWindow clock1 id0 s = s) as ->
      by (unfold toggleWindow; by rewrite Hf).
    by assert (toggleWindow clock2 id0 s = s) as ->
      by (unfold toggleWindow; by rewrite Hf).
Qed.

Lemma toggleWindow_twice_witness :
  let clock := {| Date_now := 7; toLocaleTimeString := "12:00:00" |} in
  isOpen <$> windows (toggleWindow clock "code"
                        (toggleWindow clock "code" (initial clock)))
  = [true; false; false].
Proof.
  intros clock. apply (toggleWindow_twice clock clock "code" (initial clock)).
  by apply (bool_decide_unpack _).
Defined.

(** X6.  [focusWindow] is idempotent: focusing a window a second time
    changes nothing.  (A press on a window's header focuses it twice: from
    [startDrag] and from the handler of the window itself.) *)
Theorem focusWindow_idempotent id0 s :
  focusWindow id0 (focusWindow id0 s) = focusWindow id0 s.
Proof.
  destruct (find_window id0 (windows s)) as [t|] eqn:Hf;
    [|by rewrite !(focusWindow_unknown id0 s Hf)].
  set (maxZ := Math_max_of (zIndex <$> windows s)).
  destruct (number_eqb (zIndex t) maxZ) eqn:Hmax.
  - assert (focusWindow id0 s = s) as Hs.
    { unfold focusWindow. fold maxZ. by rewrite Hf, Hmax. }
    by rewrite !Hs.
  - assert (Hs' : focusWindow id0 s
                  = {| windows := focused id0 maxZ <$> windows s;
                       logs := logs s |}).
    { unfold focusWindow. fold maxZ. by rewrite Hf, Hmax. }
    rewrite Hs'. unfold focusWindow at 1. cbn [windows logs].
    rewrite find_window_fmap by done. rewrite Hf.
    cbn [fmap option_fmap option_map].
    pose proof (find_window_Some _ _ _ Hf) as [Ht Hid].
    assert (Hz : zIndex (focused id0 maxZ t) = plus_one maxZ).
    { unfold focused. cbn. by rewrite Hid, String.eqb_refl. }
    (* maxZ is an integer: otherwise every index is -Infinity, that of
       [t] too *)
    assert (Hint : is_Int maxZ).
    { apply (below_other_is_Int (zIndex t)); [|done].
      apply Math_max_of_upper. by apply list_elem_of_fmap_2. }
    assert (Hnew : Math_max_of (zIndex <$> (focused id0 maxZ <$> windows s))
                   = plus_one maxZ).
    { apply Math_max_of_greatest.
      - rewrite <- Hz. by apply list_elem_of_fmap_2, list_elem_of_fmap_2.
      - intros z Hz'. apply list_elem_of_fmap in Hz' as (w' & -> & Hw').
        apply list_elem_of_fmap in Hw' as (w & -> & Hw).
        unfold focused. cbn.
        destruct (String.eqb (id w) id0); [apply number_le_refl|].
        apply number_lt_le, lt_plus_one; [done|].
        apply Math_max_of_upper. by apply list_elem_of_fmap_2. }
    rewrite Hnew, Hz.
    by assert (number_eqb (plus_one maxZ) (plus_one maxZ) = true) as ->
      by (by apply number_eqb_eq).
Qed.

(** X7.  Focusing a window (distinct ids, distinct integer indices): the
    window is afterwards strictly above every other window; the other
    windows are unchanged, no window is opened, closed, added, removed or
    renamed, and the log is unchanged. *)
Theorem focusWindow_on_top id0 s target :
  well_formed (windows s) -> target ∈ windows s -> id target = id0 ->
  let s' := focusWindow id0 s in
  (exists top, top ∈ windows s' /\ id top = id0 /\
     forall w, w ∈ windows s' -> id w <> id0 ->
               lt (zIndex w) (zIndex top) /\ w ∈ windows s) /\
  id <$> windows s' = id <$> windows s /\
  title <$> windows s' = title <$> windows s /\
  isOpen <$> windows s' = isOpen <$> windows s /\
  logs s' = logs s.
Proof.
  intros Hwf Hin Hid s'. split; [|split_and!; subst s'];
    [|apply ids_focusWindow..|apply logs_focusWindow].
  destruct Hwf as (Hnd & Hz & Hint).
  pose proof (find_window_unique id0 _ target Hnd Hin Hid) as Hf.
  set (maxZ := Math_max_of (zIndex <$> windows s)).
  subst s'. rewrite windows_focusWindow, Hf. fold maxZ.
  destruct (number_eqb (zIndex target) maxZ) eqn:Hmax.
  - apply number_eqb_eq in Hmax. exists target. split_and!; [done..|].
    intros w Hw Hne. split; [|done]. apply number_le_neq_lt.
    + rewrite Hmax. apply Math_max_of_upper. by apply list_elem_of_fmap_2.
    + intros Heq. apply Hne. rewrite <- Hid. f_equal.
      apply list_elem_of_lookup in Hw as [i Hi], Hin as [j Hj].
      assert (i = j) as ->; [|congruence].
      eapply NoDup_lookup; [exact Hz| |]; rewrite list_lookup_fmap.
      * by rewrite Hi.
      * rewrite Hj. cbn. by rewrite Heq.
  - exists (focused id0 maxZ target). split_and!.
    + by apply list_elem_of_fmap_2.
    + done.
    + intros w Hw Hne. apply list_elem_of_fmap in Hw as (w0 & -> & Hw0).
      cbn in Hne. rewrite focused_other by done. split; [|done].
      unfold focused. cbn. rewrite Hid, String.eqb_refl. by apply above_all.
Qed.

Lemma focusWindow_on_top_witness :
  let clock := {| Date_now := 7; toLocaleTimeString := "12:00:00" |} in
  let s' := focusWindow "console" (initial clock) in
  (exists top, top ∈ windows s' /\ id top = "console" /\
     forall w, w ∈ windows s' -> id w <> "console" ->
               lt (zIndex w) (zIndex top) /\ w ∈ windows (initial clock)) /\
  id <$> windows s' = ["controls"; "code"; "console"] /\
  title <$> windows s' = ["Controls"; "Code I/O"; "Console"] /\
  isOpen <$> windows s' = [true; false; false] /\
  logs s' = logs (initial clock).
Proof.
  intros clock.
  apply (focusWindow_on_top "console" (initial clock)
    {| id := "console"; isOpen := false; zIndex := Int 8;
       title := "Console" |}).
  - split_and!; [by apply (bool_decide_unpack _)
                | by apply (bool_decide_unpack _) | cbn; repeat constructor].
  - cbn. right. right. left.
  - reflexivity.
Defined.

(** X8.  Whatever actions are taken from the initial state, the
    application has its three windows, in their order and with their
    titles; their [zIndex] values are distinct integers; and the log has
    between 1 and 50 entries. *)
Theorem reachable_state_invariant clock s :
  rtc step (initial clock) s ->
  id <$> windows s = ["controls"; "code"; "console"] /\
  title <$> windows s = ["Controls"; "Code I/O"; "Console"] /\
  well_formed (windows s) /\
  (1 <= length (logs s) <= 50)%nat.
Proof.
  intros Hr. revert s Hr. apply rtc_ind_r; [|intros s1 s2 Hr Hstep IH].
  - split_and!; [done|done| |cbn; lia|cbn; lia].
    split_and!; [by apply (bool_decide_unpack _)
                | by apply (bool_decide_unpack _) | cbn; repeat constructor].
  - destruct IH as (Hid & Htitle & Hwf & Hlog).
    clear Hr. destruct Hstep as [clock' id0 s|id0 s|clock' message type s].
    + destruct (ids_toggleWindow clock' id0 s) as [-> ->].
      split_and!; [done|done|by apply well_formed_toggleWindow| |];
        rewrite logs_toggleWindow;
        destruct (find_window id0 (windows s)) as [t|]; try lia;
        destruct (isOpen t); rewrite ?addLog_length; lia.
    + destruct (ids_focusWindow id0 s) as (-> & -> & _).
      rewrite logs_focusWindow.
      split_and!; [done|done|by apply well_formed_focusWindow|lia|lia].
    + cbn [windows logs]. rewrite addLog_length.
      split_and!; [done|done|done|lia|lia].
Qed.

Lemma reachable_state_invariant_witness :
  let clock := {| Date_now := 7; toLocaleTimeString := "12:00:00" |} in
  let s := focusWindow "code" (toggleWindow clock "console" (initial clock)) in
  id <$> windows s = ["controls"; "code"; "console"] /\
  title <$> windows s = ["Controls"; "Code I/O"; "Console"] /\
  well_formed (windows s) /\
  (1 <= length (logs s) <= 50)%nat.
Proof.
  intros clock. apply (reachable_state_invariant clock).
  eapply rtc_l; [apply (step_toggleWindow clock "console")|].
  apply rtc_once. apply step_focusWindow.
Defined.

End WindowManager.
